(** * Storage PII scanner (runbooks/security/Security-Scan-StoragePII.py)

    A shallow embedding of the scanning core: the pattern registry
    [PII_PATTERNS], the content scanner [scan_text_for_pii] with its inline
    redaction, the object scanner [scan_blob] and the account walk
    [scan_storage_account].

    Conventions of the embedding.
    - A Python [str] is a list of code points ([N]); [bytes] is a list of
      [Byte.byte]; a Python [int] is a [Z].
    - An exception is a value of [exn]; a computation that may raise returns
      a [result].  Only subclasses of [Exception] are modelled.
    - The regular expressions are the parse trees of the nine literals of
      the source, run by a backtracking matcher with the priorities of
      Python's [re] (leftmost match, greedy repeats, first alternative that
      lets the rest of the pattern succeed).
    - The patterns are [str] patterns, so [\d], [\s] and [\b] are the Unicode
      ones.  Below code point 128 the three character categories are written
      out; above, they are read from a table [unicode_data] that is a
      parameter of the development (the interpreter's Unicode database).
    - The storage SDK is a set of collaborators whose answers are inputs:
      every call either returns a value or raises.  A paged listing is a
      lazy sequence that can raise between two items. *)

From Stdlib Require Import String Ascii.
From Stdlib.Strings Require Import Byte.
From Stdlib Require Import DecimalString DecimalPos DecimalZ.
From Stdlib Require Import List ZArith NArith QArith Lia Bool.
Import ListNotations.

(* ================================================================== *)
(** * Python values *)

(** A [str]: the sequence of its code points. *)
Definition str : Type := list N.

(** The [str] of an ASCII literal of the source. *)
Definition str_of (s : string) : str := map N_of_ascii (list_ascii_of_string s).

Definition chr (a : ascii) : N := N_of_ascii a.

(** Exceptions: the class, as far as a handler of the source tells classes
    apart, and the text [str(e)]. *)
Inductive exn_class : Type :=
| UnicodeDecodeError
| IndexError
| OtherException.

Record exn : Type := { exn_kind : exn_class; exn_text : string }.

Inductive result (A : Type) : Type :=
| Ok (a : A)
| Raise (e : exn).

Arguments Ok {A} a.
Arguments Raise {A} e.

Definition bind {A B : Type} (m : result A) (f : A -> result B) : result B :=
  match m with
  | Ok a => f a
  | Raise e => Raise e
  end.

Notation "x <- m ;; f" := (bind m (fun x => f))
  (at level 61, m at next level, right associativity).

Definition string_index_out_of_range : exn :=
  {| exn_kind := IndexError; exn_text := "string index out of range" |}.

Definition list_index_out_of_range : exn :=
  {| exn_kind := IndexError; exn_text := "list index out of range" |}.

(** [len(x)] *)
Definition py_len {A : Type} (l : list A) : Z := Z.of_nat (List.length l).

(** [s[i]] on a [str] or a list: a negative index counts from the end; an
    index outside the sequence raises [IndexError]. *)
Definition py_item {A : Type} (e : exn) (l : list A) (i : Z) : result A :=
  let j := (if i <? 0 then py_len l + i else i)%Z in
  if (j <? 0)%Z then Raise e
  else match nth_error l (Z.to_nat j) with
       | Some x => Ok x
       | None => Raise e
       end.

Definition str_item (s : str) (i : Z) : result N := py_item string_index_out_of_range s i.
Definition list_item {A : Type} (l : list A) (i : Z) : result A := py_item list_index_out_of_range l i.

(** A slice bound, clamped to [0 .. len] as slicing does. *)
Definition clamp {A : Type} (l : list A) (i : Z) : nat :=
  let j := (if i <? 0 then py_len l + i else i)%Z in
  Z.to_nat (Z.min (Z.max j 0) (py_len l)).

(** [s[a:b]] *)
Definition py_slice {A : Type} (l : list A) (a b : Z) : list A :=
  firstn (clamp l b - clamp l a) (skipn (clamp l a) l).

(** [s[a:]] *)
Definition py_slice_from {A : Type} (l : list A) (a : Z) : list A :=
  skipn (clamp l a) l.

(** [l[:n]] for a literal [n >= 0] *)
Definition py_slice_to {A : Type} (l : list A) (n : nat) : list A := firstn n l.

(** [s * n]: the empty string when [n <= 0]. *)
Definition py_repeat (s : str) (n : Z) : str := concat (repeat s (Z.to_nat n)).

(** [s.split(sep)] for a one-character separator. *)
Fixpoint py_split (sep : N) (s : str) : list str :=
  match s with
  | [] => [[]]
  | c :: s' =>
      if N.eqb c sep then [] :: py_split sep s'
      else match py_split sep s' with
           | p :: ps => (c :: p) :: ps
           | [] => [[c]]
           end
  end.

(** A [dict] with [str] keys, in insertion order. *)
Definition dict (V : Type) : Type := list (string * V).

(** [d[k] = v]: replaces the value of an existing key in place, appends a
    new key. *)
Fixpoint dict_set {V : Type} (k : string) (v : V) (d : dict V) : dict V :=
  match d with
  | [] => [(k, v)]
  | (k', v') :: d' => if String.eqb k' k then (k, v) :: d' else (k', v') :: dict_set k v d'
  end.

(** [list(d.keys())] *)
Definition dict_keys {V : Type} (d : dict V) : list string := map fst d.

(** [x in [a, b, c]] on strings *)
Definition str_in (x : string) (l : list string) : bool := existsb (String.eqb x) l.

(* ================================================================== *)
(** * Strict UTF-8 decoding: [content.decode('utf-8')] *)

Definition is_cont (b : N) : bool := (128 <=? b)%N && (b <=? 191)%N.
Definition in_range (lo hi b : N) : bool := (lo <=? b)%N && (b <=? hi)%N.

(** The well-formed byte sequences of the Unicode standard (no overlong form,
    no surrogate, nothing above U+10FFFF); [None] stands for
    [UnicodeDecodeError]. *)
Fixpoint utf8_decode_N (bs : list N) : option str :=
  match bs with
  | [] => Some []
  | b0 :: t0 =>
    if (b0 <? 128)%N then option_map (cons b0) (utf8_decode_N t0)
    else match t0 with
    | [] => None
    | b1 :: t1 =>
      if in_range 194 223 b0 then
        if is_cont b1
        then option_map (cons ((b0 - 192) * 64 + (b1 - 128))%N) (utf8_decode_N t1)
        else None
      else match t1 with
      | [] => None
      | b2 :: t2 =>
        if in_range 224 239 b0 then
          if (if (b0 =? 224)%N then in_range 160 191 b1
              else if (b0 =? 237)%N then in_range 128 159 b1
              else is_cont b1) && is_cont b2
          then option_map (cons ((b0 - 224) * 4096 + (b1 - 128) * 64 + (b2 - 128))%N)
                          (utf8_decode_N t2)
          else None
        else match t2 with
        | [] => None
        | b3 :: t3 =>
          if in_range 240 244 b0 then
            if (if (b0 =? 240)%N then in_range 144 191 b1
                else if (b0 =? 244)%N then in_range 128 143 b1
                else is_cont b1) && is_cont b2 && is_cont b3
            then option_map
                   (cons ((b0 - 240) * 262144 + (b1 - 128) * 4096
                          + (b2 - 128) * 64 + (b3 - 128))%N)
                   (utf8_decode_N t3)
            else None
          else None
        end
      end
    end
  end.

Definition utf8_decode (content : list byte) : option str :=
  utf8_decode_N (map Byte.to_N content).

(* ================================================================== *)
(** * Regular expressions *)

(** The interpreter's Unicode database, for code points from 128 on. *)
Record unicode_data : Type := {
  ucd_decimal : N -> bool;   (* decimal digits: [\d] *)
  ucd_space : N -> bool;     (* white space: [\s] *)
  ucd_alnum : N -> bool      (* alphanumerics: with [_], the word characters of [\b] *)
}.

(** An element of a bracketed set. *)
Inductive set_item : Type :=
| SLit (c : N)            (* a character *)
| SRange (lo hi : N)      (* [lo-hi] *)
| SDigit                  (* [\d] *)
| SSpace.                 (* [\s] *)

(** A one-character matcher: a literal, a category or a (negated) set. *)
Record charset : Type := { negated : bool; items : list set_item }.

(** Parse trees.  A repeat of a one-character matcher and a repeat of a
    sub-pattern are separate nodes, as in the compiled form; every repeat is
    greedy.  [Group] is the capturing group (a pattern of the registry has at
    most one); a non-capturing group leaves no node. *)
Inductive regex : Type :=
| Empty
| Chr (cs : charset)
| Boundary
| Cat (a b : regex)
| RepeatOne (lo : nat) (hi : option nat) (cs : charset)
| Repeat (lo hi : nat) (body : regex)
| Group (body : regex).

(** The matcher's position: the character before it, its index from the
    start of the attempt, the text ahead and the span of the group. *)
Record cursor : Type := {
  prev : option N;
  pos : nat;
  rest : list N;
  mark : option (nat * nat)
}.

(** What is left to match, as a function of the position reached. *)
Definition cont : Type := cursor -> option cursor.

Definition orelse (a b : option cursor) : option cursor :=
  match a with
  | Some x => Some x
  | None => b
  end.

(** [n] compulsory iterations of [step]. *)
Fixpoint iter_req (step : cont -> cont) (n : nat) (k : cont) : cont :=
  match n with
  | O => k
  | S n' => step (iter_req step n' k)
  end.

(** Up to [n] further iterations, as many as possible first. *)
Fixpoint iter_opt (step : cont -> cont) (n : nat) (k : cont) : cont :=
  match n with
  | O => k
  | S n' => fun c => orelse (step (iter_opt step n' k) c) (k c)
  end.

Section Engine.

Variable db : unicode_data.

Definition uni_is_digit (c : N) : bool :=
  if (c <? 128)%N then in_range 48 57 c else ucd_decimal db c.

Definition uni_is_space (c : N) : bool :=
  if (c <? 128)%N then in_range 9 13 c || in_range 28 32 c else ucd_space db c.

Definition uni_is_alnum (c : N) : bool :=
  if (c <? 128)%N then in_range 48 57 c || in_range 65 90 c || in_range 97 122 c
  else ucd_alnum db c.

Definition uni_is_word (c : N) : bool := uni_is_alnum c || (c =? 95)%N.

Definition item_mem (it : set_item) (c : N) : bool :=
  match it with
  | SLit x => (c =? x)%N
  | SRange lo hi => in_range lo hi c
  | SDigit => uni_is_digit c
  | SSpace => uni_is_space c
  end.

Definition charset_mem (cs : charset) (c : N) : bool :=
  xorb (negated cs) (existsb (fun it => item_mem it c) (items cs)).

(** [\b]: exactly one of the two neighbours is a word character. *)
Definition at_boundary (c : cursor) : bool :=
  let that := match prev c with Some p => uni_is_word p | None => false end in
  let this := match rest c with x :: _ => uni_is_word x | [] => false end in
  xorb this that.

(** A greedy repeat of a one-character matcher: one more character while the
    count allows it and the rest of the pattern then succeeds, else stop
    here when the minimum is reached. *)
Fixpoint repeat_one (cs : charset) (lo : nat) (hi : option nat) (k : cont)
    (pv : option N) (ps : nat) (mk : option (nat * nat)) (s : list N) {struct s}
    : option cursor :=
  let stop :=
    match lo with
    | O => k {| prev := pv; pos := ps; rest := s; mark := mk |}
    | S _ => None
    end in
  match hi, s with
  | Some O, _ => stop
  | _, [] => stop
  | _, x :: s' =>
      if charset_mem cs x
      then orelse (repeat_one cs (Nat.pred lo) (option_map Nat.pred hi) k
                              (Some x) (S ps) mk s')
                  stop
      else stop
  end.

Fixpoint run (r : regex) (k : cont) {struct r} : cont :=
  match r with
  | Empty => k
  | Chr cs => fun c =>
      match rest c with
      | x :: s' =>
          if charset_mem cs x
          then k {| prev := Some x; pos := S (pos c); rest := s'; mark := mark c |}
          else None
      | [] => None
      end
  | Boundary => fun c => if at_boundary c then k c else None
  | Cat a b => run a (run b k)
  | RepeatOne lo hi cs => fun c => repeat_one cs lo hi k (prev c) (pos c) (mark c) (rest c)
  | Repeat lo hi body => iter_req (run body) lo (iter_opt (run body) (hi - lo) k)
  | Group body => fun c =>
      run body
          (fun c' => k {| prev := prev c'; pos := pos c'; rest := rest c';
                          mark := Some (pos c, pos c') |})
          c
  end.

(** One attempt at the start of [s], [pv] being the character before it. *)
Definition re_match (r : regex) (pv : option N) (s : list N) : option cursor :=
  run r Some {| prev := pv; pos := 0; rest := s; mark := None |}.

End Engine.

(** The number of capturing groups. *)
Fixpoint groups (r : regex) : nat :=
  match r with
  | Cat a b => groups a + groups b
  | Repeat _ _ body => groups body
  | Group body => S (groups body)
  | _ => O
  end.

(** What [re.findall] returns for one match: the whole match when the pattern
    has no group, else the text of the group, empty when the group took no
    part in the match. *)
Definition findall_item (r : regex) (s : list N) (c : cursor) : str :=
  match groups r with
  | O => firstn (pos c) s
  | S _ =>
      match mark c with
      | Some (a, b) => firstn (b - a) (skipn a s)
      | None => []
      end
  end.

(** The scan of [re.findall]: at each position, from left to right, one
    attempt; after a match the scan goes on where the match ended ([skip]
    counts the characters still to pass over).  After an empty match the scan
    moves on by one character; no pattern of the registry has an empty match
    ([registry_matches_are_not_empty]). *)
Fixpoint scan (db : unicode_data) (r : regex) (skip : nat) (pv : option N) (s : list N)
    {struct s} : list str :=
  match skip with
  | S n =>
      match s with
      | [] => []
      | x :: s' => scan db r n (Some x) s'
      end
  | O =>
      match re_match db r pv s with
      | Some c =>
          findall_item r s c ::
          match s with
          | [] => []
          | x :: s' => scan db r (Nat.pred (pos c)) (Some x) s'
          end
      | None =>
          match s with
          | [] => []
          | x :: s' => scan db r 0 (Some x) s'
          end
      end
  end.

(** [re.findall(pattern, text)] *)
Definition re_findall (db : unicode_data) (r : regex) (text : str) : list str :=
  scan db r 0 None text.

(* ================================================================== *)
(** * The pattern registry *)

Definition one_of (its : list set_item) : charset := {| negated := false; items := its |}.
Definition none_of (its : list set_item) : charset := {| negated := true; items := its |}.
Definition lit (a : ascii) : regex := Chr (one_of [SLit (chr a)]).
Definition rng (a b : ascii) : set_item := SRange (chr a) (chr b).
Definition seq (rs : list regex) : regex := fold_right Cat Empty rs.
Definition lits (s : string) : regex := seq (map lit (list_ascii_of_string s)).
Definition exactly (n : nat) (cs : charset) : regex := RepeatOne n (Some n) cs.
Definition between (lo hi : nat) (cs : charset) : regex := RepeatOne lo (Some hi) cs.
Definition at_least (n : nat) (cs : charset) : regex := RepeatOne n None cs.
Definition maybe (cs : charset) : regex := RepeatOne 0 (Some 1%nat) cs.

Definition digit : charset := one_of [SDigit].
Definition space : charset := one_of [SSpace].
Definition star : N := chr "*".

(** [\b\d{3}[-\s]?\d{2}[-\s]?\d{4}\b] *)
Definition re_ssn : regex :=
  seq [Boundary; exactly 3 digit; maybe (one_of [SLit (chr "-"); SSpace]);
       exactly 2 digit; maybe (one_of [SLit (chr "-"); SSpace]); exactly 4 digit; Boundary].

(** [\b(?:\d{4}[-\s]?){3}\d{4}\b] *)
Definition re_credit_card : regex :=
  seq [Boundary;
       Repeat 3 3 (seq [exactly 4 digit; maybe (one_of [SLit (chr "-"); SSpace])]);
       exactly 4 digit; Boundary].

Definition email_local : charset :=
  one_of [rng "A" "Z"; rng "a" "z"; rng "0" "9"; SLit (chr "."); SLit (chr "_");
          SLit (chr "%"); SLit (chr "+"); SLit (chr "-")].
Definition email_host : charset :=
  one_of [rng "A" "Z"; rng "a" "z"; rng "0" "9"; SLit (chr "."); SLit (chr "-")].
Definition email_tld : charset := one_of [rng "A" "Z"; SLit (chr "|"); rng "a" "z"].

(** [\b[A-Za-z0-9._%+-]+@[A-Za-z0-9.-]+\.[A-Z|a-z]{2,}\b] *)
Definition re_email : regex :=
  seq [Boundary; at_least 1 email_local; lit "@"; at_least 1 email_host; lit ".";
       at_least 2 email_tld; Boundary].

(** [\b(\+\d{1,2}\s)?\(?\d{3}\)?[\s.-]?\d{3}[\s.-]?\d{4}\b] *)
Definition re_phone : regex :=
  seq [Boundary;
       Repeat 0 1 (Group (seq [lit "+"; between 1 2 digit; Chr space]));
       maybe (one_of [SLit (chr "(")]); exactly 3 digit; maybe (one_of [SLit (chr ")")]);
       maybe (one_of [SSpace; SLit (chr "."); SLit (chr "-")]); exactly 3 digit;
       maybe (one_of [SSpace; SLit (chr "."); SLit (chr "-")]); exactly 4 digit; Boundary].

(** [\b[A-Z]{1,2}[0-9]{6,9}\b] *)
Definition re_passport : regex :=
  seq [Boundary; between 1 2 (one_of [rng "A" "Z"]); between 6 9 (one_of [rng "0" "9"]);
       Boundary].

(** [\b[A-Z]{1}[0-9]{7}\b] *)
Definition re_driver_license : regex :=
  seq [Boundary; exactly 1 (one_of [rng "A" "Z"]); exactly 7 (one_of [rng "0" "9"]); Boundary].

(** [\b\d{1,3}\.\d{1,3}\.\d{1,3}\.\d{1,3}\b] *)
Definition re_ip_address : regex :=
  seq [Boundary; between 1 3 digit; lit "."; between 1 3 digit; lit "."; between 1 3 digit;
       lit "."; between 1 3 digit; Boundary].

(** [\b[A-Z0-9]{20}\b] *)
Definition re_aws_access_key : regex :=
  seq [Boundary; exactly 20 (one_of [rng "A" "Z"; rng "0" "9"]); Boundary].

(** [DefaultEndpointsProtocol=https;AccountName=[^;]+;AccountKey=[^;]+;] *)
Definition re_azure_connection_string : regex :=
  seq [lits "DefaultEndpointsProtocol=https;AccountName="; at_least 1 (none_of [SLit (chr ";")]);
       lits ";AccountKey="; at_least 1 (none_of [SLit (chr ";")]); lit ";"].

Definition PII_PATTERNS : dict regex :=
  [ ("SSN", re_ssn);
    ("Credit Card", re_credit_card);
    ("Email", re_email);
    ("Phone Number", re_phone);
    ("Passport Number", re_passport);
    ("US Driver License", re_driver_license);
    ("IP Address", re_ip_address);
    ("AWS Access Key", re_aws_access_key);
    ("Azure Connection String", re_azure_connection_string) ]%string.

(* ================================================================== *)
(** * The content scanner *)

(** A value of the findings map: [{"count": ..., "samples": [...]}]. *)
Record finding : Type := { count : Z; samples : list str }.

Definition findings_map : Type := dict finding.

(** The body of the loop over [matches]: the redacted form of one match is
    appended to [redacted_matches] (the email branch appends nothing when the
    match holds no [@]).  The right operand of ['*' * ...] is written as the
    source computes it and can be negative. *)
Definition redact_match (pattern_name : string) (m : str) (redacted_matches : list str)
    : result (list str) :=
  if String.eqb pattern_name "Email" then
    let parts := py_split (chr "@") m in
    if (1 <? py_len parts)%Z then
      p0 <- list_item parts 0 ;;
      first <- str_item p0 0 ;;
      last <- str_item p0 (-1) ;;
      p1 <- list_item parts 1 ;;
      Ok (redacted_matches
          ++ [[first] ++ py_repeat [star] (py_len p0 - 2) ++ [last] ++ [chr "@"] ++ p1])
    else Ok redacted_matches
  else if str_in pattern_name ["SSN"; "Credit Card"; "Phone Number"]%string then
    Ok (redacted_matches ++ [py_repeat [star] (py_len m - 4) ++ py_slice_from m (-4)])
  else
    redacted <-
      (if (6 <? py_len m)%Z
       then Ok (py_slice m 0 3 ++ py_repeat [star] (py_len m - 6) ++ py_slice_from m (-3))
       else first <- str_item m 0 ;;
            last <- str_item m (-1) ;;
            Ok ([first] ++ py_repeat [star] (py_len m - 2) ++ [last])) ;;
    Ok (redacted_matches ++ [redacted]).

(** [for match in matches: ...] *)
Fixpoint redact_matches (pattern_name : string) (matches : list str)
    (redacted_matches : list str) : result (list str) :=
  match matches with
  | [] => Ok redacted_matches
  | m :: ms =>
      acc <- redact_match pattern_name m redacted_matches ;;
      redact_matches pattern_name ms acc
  end.

(** The body of the loop over the registry. *)
Definition scan_pattern (db : unicode_data) (text : str) (pattern_name : string)
    (pattern : regex) (findings : findings_map) : result findings_map :=
  let matches := re_findall db pattern text in
  match matches with
  | [] => Ok findings
  | _ :: _ =>
      redacted_matches <- redact_matches pattern_name matches [] ;;
      Ok (dict_set pattern_name
                   {| count := py_len matches; samples := py_slice_to redacted_matches 3 |}
                   findings)
  end.

Fixpoint scan_patterns (db : unicode_data) (text : str) (patterns : dict regex)
    (findings : findings_map) : result findings_map :=
  match patterns with
  | [] => Ok findings
  | (pattern_name, pattern) :: more =>
      findings' <- scan_pattern db text pattern_name pattern findings ;;
      scan_patterns db text more findings'
  end.

Definition scan_text_for_pii (db : unicode_data) (text : str) : result findings_map :=
  scan_patterns db text PII_PATTERNS [].

(* ================================================================== *)
(** * The object scanner *)

(** The storage collaborators of one blob, by the answers they give. *)
Record blob_properties : Type := { size : Z }.

Record stream_downloader : Type := { readall : result (list byte) }.

Record blob_client : Type := {
  get_blob_properties : result blob_properties;
  download_blob : result stream_downloader
}.

(** The dictionary [scan_blob] returns.  ["scanned"] is always set; the other
    keys are set on some paths only. *)
Record scan_outcome : Type := {
  scanned : bool;
  reason : option string;
  size_mb : option Q;
  findings : option findings_map;
  has_pii : option bool
}.

(** The reads of the caller: [scan_result.get("has_pii", False)],
    [scan_result.get("findings", {})], [scan_result.get("size_mb", 0)]. *)
Definition get_has_pii (o : scan_outcome) : bool :=
  match has_pii o with Some b => b | None => false end.
Definition get_findings (o : scan_outcome) : findings_map :=
  match findings o with Some f => f | None => [] end.
Definition get_size_mb (o : scan_outcome) : Q :=
  match size_mb o with Some q => q | None => 0%Q end.

(** What [scan_blob] does besides returning, in order. *)
Inductive event : Type :=
| GetBlobProperties
| DownloadBlob
| ReadAll
| ScanText (text : str).

(** [properties.size / (1024 * 1024)]: the exact quotient (the interpreter
    rounds it to the nearest double). *)
Definition megabytes (n : Z) : Q := Qmake n 1048576.

(** [except Exception as e] *)
Definition error_outcome (e : exn) : scan_outcome :=
  {| scanned := false; reason := Some ("Error: " ++ exn_text e)%string;
     size_mb := None; findings := None; has_pii := None |}.

(** [except UnicodeDecodeError] *)
Definition not_text_outcome (properties : blob_properties) : scan_outcome :=
  {| scanned := false; reason := Some "Not a text file"%string;
     size_mb := Some (megabytes (size properties)); findings := None; has_pii := None |}.

Definition scan_blob (db : unicode_data) (client : blob_client) (max_size_mb : Z)
    : scan_outcome * list event :=
  match get_blob_properties client with
  | Raise e => (error_outcome e, [GetBlobProperties])
  | Ok properties =>
    if (max_size_mb * 1024 * 1024 <? size properties)%Z then
      ({| scanned := false; reason := Some "File too large"%string;
          size_mb := Some (megabytes (size properties)); findings := None; has_pii := None |},
       [GetBlobProperties])
    else
      match download_blob client with
      | Raise e => (error_outcome e, [GetBlobProperties; DownloadBlob])
      | Ok stream =>
        match readall stream with
        | Raise e => (error_outcome e, [GetBlobProperties; DownloadBlob; ReadAll])
        | Ok content =>
          match utf8_decode content with
          | None => (not_text_outcome properties, [GetBlobProperties; DownloadBlob; ReadAll])
          | Some text_content =>
            let trace := [GetBlobProperties; DownloadBlob; ReadAll; ScanText text_content] in
            match scan_text_for_pii db text_content with
            | Ok pii_findings =>
                ({| scanned := true; reason := None;
                    size_mb := Some (megabytes (size properties));
                    findings := Some pii_findings;
                    has_pii := Some (0 <? py_len pii_findings)%Z |},
                 trace)
            | Raise e =>
                match exn_kind e with
                | UnicodeDecodeError => (not_text_outcome properties, trace)
                | _ => (error_outcome e, trace)
                end
            end
          end
        end
      end
  end.

(* ================================================================== *)
(** * The account walk *)

(** A paged listing: items one by one, then the end, or an exception raised
    while the next item is fetched. *)
Inductive listing (A : Type) : Type :=
| Exhausted
| Yield (x : A) (more : listing A)
| Broken (e : exn).

Arguments Exhausted {A}.
Arguments Yield {A} x more.
Arguments Broken {A} e.

(** The listing that yields the items of [l] and then goes on as [tail]. *)
Fixpoint yields {A : Type} (l : list A) (tail : listing A) : listing A :=
  match l with
  | [] => tail
  | x :: l' => Yield x (yields l' tail)
  end.

(** An item of [container_client.list_blobs()], with the client
    [container_client.get_blob_client(blob.name)] builds for it. *)
Record blob_item : Type := { blob_name : string; client_of : blob_client }.

(** An item of [blob_service.list_containers()], with the answer of
    [list_blobs()] on the client built for it. *)
Record container_item : Type := {
  name_of : string;
  list_blobs : result (listing blob_item)
}.

Record blob_service : Type := { list_containers : result (listing container_item) }.

(** An element of [container_results["findings"]]. *)
Record blob_finding : Type := {
  f_blob_name : string;
  f_size_mb : Q;
  pii_types : list string;
  details : findings_map
}.

Record container_results : Type := {
  container_name : string;
  c_blobs_scanned : Z;
  blobs_with_pii : Z;
  c_findings : list blob_finding
}.

Record account_results : Type := {
  storage_account : string;
  resource_group : string;
  scan_time : string;
  containers_scanned : Z;
  blobs_scanned : Z;
  pii_found_count : Z;
  pii_findings : list container_results
}.

(** [container_results["blobs_scanned"] += 1] *)
Definition c_count_scanned (c : container_results) : container_results :=
  {| container_name := container_name c; c_blobs_scanned := c_blobs_scanned c + 1;
     blobs_with_pii := blobs_with_pii c; c_findings := c_findings c |}.

(** [container_results["blobs_with_pii"] += 1] and the append to its findings *)
Definition c_add_finding (f : blob_finding) (c : container_results) : container_results :=
  {| container_name := container_name c; c_blobs_scanned := c_blobs_scanned c;
     blobs_with_pii := blobs_with_pii c + 1; c_findings := c_findings c ++ [f] |}.

(** [results["blobs_scanned"] += 1] *)
Definition r_count_scanned (r : account_results) : account_results :=
  {| storage_account := storage_account r; resource_group := resource_group r;
     scan_time := scan_time r; containers_scanned := containers_scanned r;
     blobs_scanned := blobs_scanned r + 1; pii_found_count := pii_found_count r;
     pii_findings := pii_findings r |}.

(** [results["pii_found_count"] += 1] *)
Definition r_count_pii (r : account_results) : account_results :=
  {| storage_account := storage_account r; resource_group := resource_group r;
     scan_time := scan_time r; containers_scanned := containers_scanned r;
     blobs_scanned := blobs_scanned r; pii_found_count := pii_found_count r + 1;
     pii_findings := pii_findings r |}.

(** [results["containers_scanned"] += 1] *)
Definition r_count_container (r : account_results) : account_results :=
  {| storage_account := storage_account r; resource_group := resource_group r;
     scan_time := scan_time r; containers_scanned := containers_scanned r + 1;
     blobs_scanned := blobs_scanned r; pii_found_count := pii_found_count r;
     pii_findings := pii_findings r |}.

(** [results["pii_findings"].append(container_results)] *)
Definition r_add_container (c : container_results) (r : account_results) : account_results :=
  {| storage_account := storage_account r; resource_group := resource_group r;
     scan_time := scan_time r; containers_scanned := containers_scanned r;
     blobs_scanned := blobs_scanned r; pii_found_count := pii_found_count r;
     pii_findings := pii_findings r ++ [c] |}.

(** The state of the loop over the blobs of one container when it is left:
    how it was left ([Some e]: by the exception [e]), the two dictionaries it
    updates, [scan_count], and the names of the blobs handed to [scan_blob],
    in order. *)
Record blob_walk : Type := {
  w_raised : option exn;
  w_container : container_results;
  w_results : account_results;
  w_scan_count : Z;
  w_examined : list string
}.

(** The update of both dictionaries after one [scan_blob]. *)
Definition record_scan (blob : blob_item) (scan_result : scan_outcome)
    (c : container_results) (r : account_results) : container_results * account_results :=
  if scanned scan_result then
    let c := c_count_scanned c in
    let r := r_count_scanned r in
    if get_has_pii scan_result then
      let finding :=
        {| f_blob_name := blob_name blob;
           f_size_mb := get_size_mb scan_result;
           pii_types := dict_keys (get_findings scan_result);
           details := get_findings scan_result |} in
      (c_add_finding finding c, r_count_pii r)
    else (c, r)
  else (c, r).

(** [for blob in blobs: ...] *)
Fixpoint scan_blobs (db : unicode_data) (max_size_mb scan_depth : Z)
    (blobs : listing blob_item) (scan_count : Z) (c : container_results)
    (r : account_results) (examined : list string) : blob_walk :=
  match blobs with
  | Exhausted =>
      {| w_raised := None; w_container := c; w_results := r;
         w_scan_count := scan_count; w_examined := examined |}
  | Broken e =>
      {| w_raised := Some e; w_container := c; w_results := r;
         w_scan_count := scan_count; w_examined := examined |}
  | Yield blob more =>
      if (scan_depth <=? scan_count)%Z then
        {| w_raised := None; w_container := c; w_results := r;
           w_scan_count := scan_count; w_examined := examined |}
      else
        let scan_result := fst (scan_blob db (client_of blob) max_size_mb) in
        let '(c', r') := record_scan blob scan_result c r in
        scan_blobs db max_size_mb scan_depth more (scan_count + 1) c' r'
                   (examined ++ [blob_name blob])
  end.

(** The state of the loop over the containers when it is left: how, the
    account dictionary, every [container_results] dictionary created so far
    (appended to [pii_findings] or not), and per container the blobs handed
    to [scan_blob]. *)
Record account_walk : Type := {
  a_raised : option exn;
  a_results : account_results;
  a_produced : list container_results;
  a_examined : list (string * list string)
}.

Definition new_container_results (container : container_item) : container_results :=
  {| container_name := name_of container; c_blobs_scanned := 0; blobs_with_pii := 0;
     c_findings := [] |}.

(** [for container in containers: ...] *)
Fixpoint scan_containers (db : unicode_data) (max_size_mb scan_depth : Z)
    (containers : listing container_item) (r : account_results)
    (produced : list container_results) (examined : list (string * list string))
    : account_walk :=
  match containers with
  | Exhausted =>
      {| a_raised := None; a_results := r; a_produced := produced; a_examined := examined |}
  | Broken e =>
      {| a_raised := Some e; a_results := r; a_produced := produced; a_examined := examined |}
  | Yield container more =>
      let c0 := new_container_results container in
      match list_blobs container with
      | Raise e =>
          {| a_raised := Some e; a_results := r; a_produced := produced ++ [c0];
             a_examined := examined ++ [(name_of container, [])] |}
      | Ok blobs =>
          let w := scan_blobs db max_size_mb scan_depth blobs 0 c0 r [] in
          let produced' := produced ++ [w_container w] in
          let examined' := examined ++ [(name_of container, w_examined w)] in
          match w_raised w with
          | Some e =>
              {| a_raised := Some e; a_results := w_results w; a_produced := produced';
                 a_examined := examined' |}
          | None =>
              let r1 := r_count_container (w_results w) in
              let r2 := if (0 <? blobs_with_pii (w_container w))%Z
                        then r_add_container (w_container w) r1 else r1 in
              scan_containers db max_size_mb scan_depth more r2 produced' examined'
          end
      end
  end.

(** The dictionary [results] as first built; [now] is
    [datetime.datetime.now().isoformat()]. *)
Definition new_account_results (account_name resource_group now : string) : account_results :=
  {| storage_account := account_name; resource_group := resource_group; scan_time := now;
     containers_scanned := 0; blobs_scanned := 0; pii_found_count := 0; pii_findings := [] |}.

(** The whole run, with what it did: [service] is the client
    [BlobServiceClient(...)] builds from [account_name] and [account_key]. *)
Definition run_account (db : unicode_data) (service : blob_service)
    (account_name resource_group now : string) (max_size_mb scan_depth : Z) : account_walk :=
  let results := new_account_results account_name resource_group now in
  match list_containers service with
  | Raise e => {| a_raised := Some e; a_results := results; a_produced := []; a_examined := [] |}
  | Ok containers => scan_containers db max_size_mb scan_depth containers results [] []
  end.

(** What [scan_storage_account] returns: the exception of the walk, if any, is
    caught and printed. *)
Definition scan_storage_account (db : unicode_data) (service : blob_service)
    (account_name resource_group now : string) (max_size_mb scan_depth : Z) : account_results :=
  a_results (run_account db service account_name resource_group now max_size_mb scan_depth).

(* ================================================================== *)
(** * The words a pattern can match *)

(** An upper bound of the matches of [r]: the words [r] describes when its
    two anchors are left out of account.  Every match of the matcher is one
    of these words ([run_sound]). *)
Fixpoint Lang (db : unicode_data) (r : regex) (w : str) : Prop :=
  match r with
  | Empty => w = []
  | Boundary => w = []
  | Chr cs => exists x, w = [x] /\ charset_mem db cs x = true
  | Cat a b => exists u v, w = u ++ v /\ Lang db a u /\ Lang db b v
  | RepeatOne lo hi cs =>
      Forall (fun x => charset_mem db cs x = true) w /\ (lo <= length w)%nat
      /\ match hi with Some h => (length w <= h)%nat | None => True end
  | Repeat lo hi body =>
      exists ws, w = concat ws /\ Forall (Lang db body) ws
                 /\ (lo <= length ws <= Nat.max lo hi)%nat
  | Group body => Lang db body w
  end.

(** The least length of a word of [r]. *)
Fixpoint min_width (r : regex) : nat :=
  match r with
  | Empty => 0
  | Boundary => 0
  | Chr _ => 1
  | Cat a b => min_width a + min_width b
  | RepeatOne lo _ _ => lo
  | Repeat lo _ body => lo * min_width body
  | Group body => min_width body
  end.

(** No one-character matcher of [r] accepts [x]. *)
Fixpoint avoids (db : unicode_data) (x : N) (r : regex) : bool :=
  match r with
  | Empty => true
  | Boundary => true
  | Chr cs => negb (charset_mem db cs x)
  | Cat a b => avoids db x a && avoids db x b
  | RepeatOne _ _ cs => negb (charset_mem db cs x)
  | Repeat _ _ body => avoids db x body
  | Group body => avoids db x body
  end.

(** A step of the matcher consumes a word of [L] and hands over to the rest
    of the pattern. *)
Definition sound_step (step : cont -> cont) (L : str -> Prop) : Prop :=
  forall k c c', step k c = Some c' ->
    exists w c1, rest c = w ++ rest c1 /\ pos c1 = (pos c + length w)%nat /\ L w
                 /\ k c1 = Some c'.

(* ================================================================== *)
(** * What a redacted sample shows *)

(** The last four characters are kept, each character before them is a
    [*]. *)
Definition keeps_last_four (raw red : str) : Prop :=
  exists hidden shown,
    raw = hidden ++ shown /\ length shown = 4%nat
    /\ red = repeat star (length hidden) ++ shown.

(** The first three and the last three characters are kept, each character
    between them is a [*]. *)
Definition keeps_three_and_three (raw red : str) : Prop :=
  exists a hidden b,
    raw = a ++ hidden ++ b /\ length a = 3%nat /\ length b = 3%nat
    /\ red = a ++ repeat star (length hidden) ++ b.

(** The first and the last character of the part before the [@] are kept, with
    two [*] less than that part has characters between them, and everything
    from the [@] on is kept.  The sample is the match itself exactly when the
    part before the [@] has two characters. *)
Definition keeps_local_ends (raw red : str) : Prop :=
  exists local domain,
    raw = local ++ chr "@" :: domain /\ local <> [] /\ ~ In (chr "@") local
    /\ red = hd 0%N local :: repeat star (length local - 2)
             ++ List.last local 0%N :: chr "@" :: domain
    /\ (red = raw <-> length local = 2%nat).

(** The three branches of the redaction, by pattern name. *)
Definition reveals (pattern_name : string) (raw red : str) : Prop :=
  if String.eqb pattern_name "Email" then keeps_local_ends raw red
  else if str_in pattern_name ["SSN"; "Credit Card"; "Phone Number"]%string
       then keeps_last_four raw red /\ red <> raw
       else keeps_three_and_three raw red /\ red <> raw.

(* ================================================================== *)
(** * Scenarios *)

(** A blob of 15 MB: its properties report 15 * 1024 * 1024 bytes; a download
    would deliver text. *)
Definition blob_of_15_mb : blob_client :=
  {| get_blob_properties := Ok {| size := 15728640 |};
     download_blob := Ok {| readall := Ok [x68; x69] |} |}.

(** A blob of four bytes that are no UTF-8 text. *)
Definition binary_blob : blob_client :=
  {| get_blob_properties := Ok {| size := 4 |};
     download_blob := Ok {| readall := Ok [xff; xfe; x00; x01] |} |}.

(** A database in which no code point from 128 on is a digit, a space or
    alphanumeric; it stands in where a scenario of ASCII text needs one. *)
Definition ascii_only : unicode_data :=
  {| ucd_decimal := fun _ => false; ucd_space := fun _ => false;
     ucd_alnum := fun _ => false |}.

(** [sum(...)] over integers. *)
Definition sum_Z (l : list Z) : Z := fold_right Z.add 0%Z l.

(** A blob of text without anything to find. *)
Definition plain_blob : blob_item :=
  {| blob_name := "notes.txt";
     client_of := {| get_blob_properties := Ok {| size := 2 |};
                     download_blob := Ok {| readall := Ok [x68; x69] |} |} |}.

(** An account with one container that lists one blob. *)
Definition one_blob_service : blob_service :=
  {| list_containers :=
       Ok (Yield {| name_of := "docs"; list_blobs := Ok (Yield plain_blob Exhausted) |}
                 Exhausted) |}.

(** The counters of a [container_results] dictionary against the cap. *)
Definition within_cap (scan_depth : Z) (c : container_results) : Prop :=
  (0 <= blobs_with_pii c <= c_blobs_scanned c
   /\ c_blobs_scanned c <= Z.max 0 scan_depth)%Z.

(* ================================================================== *)
(** * Notions for the properties of the scanner *)

(** The pattern has a match in the text: [if matches:]. *)
Definition has_match (db : unicode_data) (text : str) (p : string * regex) : bool :=
  match re_findall db (snd p) text with
  | [] => false
  | _ :: _ => true
  end.

(** The strings of [ms] stand in [text] one after the other, from left to
    right, without overlap. *)
Fixpoint occur_in_order (ms : list str) (text : str) : Prop :=
  match ms with
  | [] => True
  | m :: ms' => exists before after, text = before ++ m ++ after /\ occur_in_order ms' after
  end.

(** The items a listing yields before it ends or raises. *)
Fixpoint listing_items {A : Type} (l : listing A) : list A :=
  match l with
  | Exhausted => []
  | Yield x more => x :: listing_items more
  | Broken _ => []
  end.

(** The entry [e] of a findings map is the finding of a pattern of
    [patterns] on [text]: its count is the number of matches, at least one,
    and it has a sample for each of the first three matches. *)
Definition finding_of (db : unicode_data) (text : str) (patterns : dict regex)
    (e : string * finding) : Prop :=
  exists r,
    In (fst e, r) patterns
    /\ count (snd e) = py_len (re_findall db r text)
    /\ (1 <= count (snd e))%Z
    /\ length (samples (snd e)) = Nat.min 3 (length (re_findall db r text)).

(** The dictionary of the size check. *)
Definition too_large_outcome (properties : blob_properties) : scan_outcome :=
  {| scanned := false; reason := Some "File too large"%string;
     size_mb := Some (megabytes (size properties)); findings := None; has_pii := None |}.

(** The dictionary of a scanned blob. *)
Definition scanned_outcome (properties : blob_properties) (pii_findings : findings_map)
    : scan_outcome :=
  {| scanned := true; reason := None; size_mb := Some (megabytes (size properties));
     findings := Some pii_findings; has_pii := Some (0 <? py_len pii_findings)%Z |}.

(** A blob of exactly 10 MB of reported size that delivers the text [hi]. *)
Definition blob_at_the_limit : blob_client :=
  {| get_blob_properties := Ok {| size := 10485760 |};
     download_blob := Ok {| readall := Ok [x68; x69] |} |}.

(** A blob whose properties call is refused. *)
Definition forbidden_blob : blob_client :=
  {| get_blob_properties := Raise {| exn_kind := OtherException; exn_text := "403" |};
     download_blob := Ok {| readall := Ok [] |} |}.

(** A [container_results] dictionary counts its own findings, and each
    finding names the patterns of a findings map that is not empty. *)
Definition findings_consistent (c : container_results) : Prop :=
  blobs_with_pii c = py_len (c_findings c)
  /\ Forall (fun f => details f <> [] /\ pii_types f = dict_keys (details f)) (c_findings c).

(** [container_results["blobs_with_pii"] > 0] *)
Definition with_pii (c : container_results) : bool := (0 <? blobs_with_pii c)%Z.

(** An account with one container that lists one blob, walked with a scan
    depth of zero. *)
Definition walk_with_depth_zero : account_walk :=
  run_account ascii_only one_blob_service "acct" "rg" "now" 10 0.

(* ================================================================== *)
(** * The driver: [get_automation_vars] and [main] *)

(** [scan_storage_account] is declared [async def] and [main], a plain
    function, calls it without [await]: the call builds a coroutine object
    that holds the arguments, and the body of [scan_storage_account] does not
    run.  The value bound to [scan_results] is that object; a dictionary is
    what an awaited call would give. *)
Record coroutine : Type := {
  co_account_name : string;
  co_account_key : string;
  co_resource_group : string;
  co_max_size_mb : Z;
  co_scan_depth : Z
}.

Inductive py_object : Type :=
| Dict (d : account_results)
| Coroutine (c : coroutine).

Definition not_subscriptable : exn :=
  {| exn_kind := OtherException; exn_text := "'coroutine' object is not subscriptable" |}.

Definition no_attribute_get : exn :=
  {| exn_kind := OtherException; exn_text := "'coroutine' object has no attribute 'get'" |}.

Definition key_error (key : string) : exn :=
  {| exn_kind := OtherException; exn_text := "'" ++ key ++ "'" |}.

(** [o[key]] for the three counters [main] reads. *)
Definition getitem (o : py_object) (key : string) : result Z :=
  match o with
  | Coroutine _ => Raise not_subscriptable
  | Dict d =>
      if String.eqb key "containers_scanned" then Ok (containers_scanned d)
      else if String.eqb key "blobs_scanned" then Ok (blobs_scanned d)
      else if String.eqb key "pii_found_count" then Ok (pii_found_count d)
      else Raise (key_error key)
  end.

(** [o.get('pii_findings', [])] *)
Definition get_pii_findings (o : py_object) : result (list container_results) :=
  match o with
  | Coroutine _ => Raise no_attribute_get
  | Dict d => Ok (pii_findings d)
  end.

(** The call [scan_storage_account(account_name=..., ...)] of [main]. *)
Definition call_scan_storage_account (account_name account_key resource_group : string)
    (max_size_mb scan_depth : Z) : py_object :=
  Coroutine {| co_account_name := account_name; co_account_key := account_key;
               co_resource_group := resource_group; co_max_size_mb := max_size_mb;
               co_scan_depth := scan_depth |}.

(** An item of [storage_accounts.list_by_resource_group]. *)
Record storage_account_item : Type := { account_name_of : string }.

(** [storage_client.storage_accounts]: the listing of a resource group, and
    the values of [list_keys(...).keys]. *)
Record storage_accounts_api : Type := {
  list_by_resource_group : string -> result (listing storage_account_item);
  list_keys : string -> string -> result (list string)
}.

(** What the run depends on outside the storage service: the import of the
    [automationassets] module, the automation variable [TargetResourceGroups]
    parsed as JSON (an array of names), the run-as credential, the
    environment variable [AZURE_SUBSCRIPTION_ID], and the two management
    clients built from them. *)
Record automation : Type := {
  import_automationassets : result unit;
  target_resource_groups : result (list string);
  runas_credential : result unit;
  subscription_id : result string;
  management_clients : result storage_accounts_api
}.

(** The import stands before the [try]; inside, every exception is printed
    and answered by the empty list. *)
Definition get_automation_vars (env : automation) : result (list string) :=
  _ <- import_automationassets env ;;
  Ok (match target_resource_groups env with
      | Ok resource_groups => resource_groups
      | Raise _ => []
      end).

(** The prints after the scan of one account; the sets of PII types they
    build are printed and dropped. *)
Definition report_account (scan_results : py_object) : result unit :=
  _ <- getitem scan_results "containers_scanned" ;;
  _ <- getitem scan_results "blobs_scanned" ;;
  _ <- getitem scan_results "pii_found_count" ;;
  n <- getitem scan_results "pii_found_count" ;;
  if (0 <? n)%Z then _ <- get_pii_findings scan_results ;; Ok tt else Ok tt.

(** [for storage_account in storage_accounts: ...] *)
Fixpoint scan_accounts (api : storage_accounts_api) (rg_name : string)
    (max_scan_size_mb scan_depth : Z) (storage_accounts : listing storage_account_item)
    (all_results : list py_object) : result (list py_object) :=
  match storage_accounts with
  | Exhausted => Ok all_results
  | Broken e => Raise e
  | Yield storage_account more =>
      keys <- list_keys api rg_name (account_name_of storage_account) ;;
      primary_key <- list_item keys 0 ;;
      let scan_results :=
        call_scan_storage_account (account_name_of storage_account) primary_key rg_name
                                  max_scan_size_mb scan_depth in
      let all_results := all_results ++ [scan_results] in
      _ <- report_account scan_results ;;
      scan_accounts api rg_name max_scan_size_mb scan_depth more all_results
  end.

(** [for rg_name in resource_group_names: ...] *)
Fixpoint scan_groups (api : storage_accounts_api) (max_scan_size_mb scan_depth : Z)
    (resource_group_names : list string) (all_results : list py_object)
    : result (list py_object) :=
  match resource_group_names with
  | [] => Ok all_results
  | rg_name :: more =>
      storage_accounts <- list_by_resource_group api rg_name ;;
      all_results' <- scan_accounts api rg_name max_scan_size_mb scan_depth
                                    storage_accounts all_results ;;
      scan_groups api max_scan_size_mb scan_depth more all_results'
  end.

(** [sum(result[key] for result in all_results)] *)
Fixpoint sum_items (key : string) (all_results : list py_object) : result Z :=
  match all_results with
  | [] => Ok 0%Z
  | o :: more =>
      v <- getitem o key ;;
      rest <- sum_items key more ;;
      Ok (v + rest)%Z
  end.

(** [sum(1 for result in all_results if result['pii_found_count'] > 0)] *)
Fixpoint count_with_pii (all_results : list py_object) : result Z :=
  match all_results with
  | [] => Ok 0%Z
  | o :: more =>
      v <- getitem o "pii_found_count" ;;
      rest <- count_with_pii more ;;
      Ok ((if (0 <? v)%Z then 1 else 0) + rest)%Z
  end.

Record scan_summary : Type := {
  storage_accounts_scanned : Z;
  s_containers_scanned : Z;
  s_blobs_scanned : Z;
  s_blobs_with_pii : Z;
  storage_accounts_with_pii : Z
}.

(** The dictionary [main] returns. *)
Record main_output : Type := {
  summary : scan_summary;
  detailed_results : list py_object
}.

(** The body of the [try] of [main]. *)
Definition main_body (env : automation) (resource_group_names : list string)
    (max_scan_size_mb scan_depth : Z) : result main_output :=
  _ <- runas_credential env ;;
  _ <- subscription_id env ;;
  api <- management_clients env ;;
  all_results <- scan_groups api max_scan_size_mb scan_depth resource_group_names [] ;;
  total_containers_scanned <- sum_items "containers_scanned" all_results ;;
  total_blobs_scanned <- sum_items "blobs_scanned" all_results ;;
  total_pii_found <- sum_items "pii_found_count" all_results ;;
  accounts_with_pii <- count_with_pii all_results ;;
  Ok {| summary := {| storage_accounts_scanned := py_len all_results;
                      s_containers_scanned := total_containers_scanned;
                      s_blobs_scanned := total_blobs_scanned;
                      s_blobs_with_pii := total_pii_found;
                      storage_accounts_with_pii := accounts_with_pii |};
        detailed_results := all_results |}.

(** [raise Exception(f"Error in PII scan: {str(e)}")] *)
Definition pii_scan_error (e : exn) : exn :=
  {| exn_kind := OtherException; exn_text := "Error in PII scan: " ++ exn_text e |}.

(** [main]: [None] or an empty list of names sends it to the automation
    variable; the import of the credential function stands before the
    [try]. *)
Definition main (env : automation) (resource_group_names : option (list string))
    (max_scan_size_mb scan_depth : Z) : result main_output :=
  names <- match resource_group_names with
           | Some (rg :: more) => Ok (rg :: more)
           | _ => get_automation_vars env
           end ;;
  _ <- import_automationassets env ;;
  match main_body env names max_scan_size_mb scan_depth with
  | Ok out => Ok out
  | Raise e => Raise (pii_scan_error e)
  end.


Definition one_account_env : automation :=
  {| import_automationassets := Ok tt;
     target_resource_groups := Ok ["rg"%string];
     runas_credential := Ok tt;
     subscription_id := Ok "sub"%string;
     management_clients :=
       Ok {| list_by_resource_group :=
               fun _ => Ok (Yield {| account_name_of := "acct" |} Exhausted);
             list_keys := fun _ _ => Ok ["key"%string] |} |}.

(* ================================================================== *)
(** * Notions for the text of the capturing group *)

(** Every capturing group of [r] has a body whose words satisfy [G]. *)
Fixpoint groups_within (db : unicode_data) (G : str -> Prop) (r : regex) : Prop :=
  match r with
  | Cat a b => groups_within db G a /\ groups_within db G b
  | Repeat _ _ body => groups_within db G body
  | Group body => (forall w, Lang db body w -> G w) /\ groups_within db G body
  | _ => True
  end.

(** The cursor stands in the text [s0] of the attempt at its index. *)
Definition placed (s0 : str) (c : cursor) : Prop := rest c = skipn (pos c) s0.

(** The span of the group, when set, holds a text that satisfies [G]. *)
Definition mark_within (G : str -> Prop) (s0 : str) (c : cursor) : Prop :=
  match mark c with
  | None => True
  | Some (a, b) => G (firstn (b - a) (skipn a s0))
  end.

(** A step of the matcher that, besides consuming a word of [L], keeps the
    span of the group on a text that satisfies [G]. *)
Definition marked_step (s0 : str) (G : str -> Prop) (step : cont -> cont)
    (L : str -> Prop) : Prop :=
  forall k c c',
    step k c = Some c' -> placed s0 c -> mark_within G s0 c ->
    exists w c1,
      rest c = w ++ rest c1 /\ pos c1 = (pos c + length w)%nat /\ L w
      /\ mark_within G s0 c1 /\ k c1 = Some c'.

(** The group of the Phone Number pattern: [\+\d{1,2}\s]. *)
Definition phone_group : regex := seq [lit "+"; between 1 2 digit; Chr space].

(* ================================================================== *)
(** * Task generation (UNTESTED-batch-demo/scripts/generate_tasks.py) *)

Module GenerateTasks.

Definition zero_division : exn :=
  {| exn_kind := OtherException; exn_text := "integer division or modulo by zero" |}.

Definition zero_modulo : exn :=
  {| exn_kind := OtherException; exn_text := "integer modulo by zero" |}.

(** [a // b]: the quotient rounded down. *)
Definition floordiv (a b : Z) : result Z :=
  if (b =? 0)%Z then Raise zero_division else Ok (a / b)%Z.

(** [a % b]: the remainder, with the sign of [b]. *)
Definition modulo (a b : Z) : result Z :=
  if (b =? 0)%Z then Raise zero_modulo else Ok (a mod b)%Z.

(** [f"{n}"] *)
Definition str_int (n : Z) : string := NilZero.string_of_int (Z.to_int n).

Fixpoint zeros (k : nat) : string :=
  match k with
  | O => EmptyString
  | S k' => String "0" (zeros k')
  end.

(** [f"{n:04d}"]: the sign, then the digits padded with zeros to a width of
    four in all. *)
Definition format_04d (n : Z) : string :=
  let sign := if (n <? 0)%Z then "-"%string else EmptyString in
  let digits := str_int (Z.abs n) in
  (sign ++ zeros (4 - String.length sign - String.length digits) ++ digits)%string.

Record output_file : Type := {
  file_pattern : string;
  container_url : string;
  upload_condition : string
}.

(** A task specification. *)
Record task : Type := {
  id_of : string;
  display_name : string;
  command_line : string;
  resource_files : list string;
  output_files : list output_file
}.

Definition upload_of (pattern : string) : output_file :=
  {| file_pattern := pattern; container_url := "$CONTAINER_SAS_URL";
     upload_condition := "taskCompletion" |}.

(** The body of the loop of [generate_tasks], for index [i]. *)
Definition make_task (i task_points : Z) : task :=
  let task_id := format_04d (i + 1) in
  {| id_of := task_id;
     display_name := ("pi-task-" ++ task_id)%string;
     command_line :=
       ("python3 $AZ_BATCH_APP_PACKAGE_montecarlo/monte_carlo_pi.py"
        ++ " -n " ++ str_int task_points
        ++ " -t " ++ task_id
        ++ " -o $AZ_BATCH_TASK_WORKING_DIR"
        ++ " -p")%string;
     resource_files := [];
     output_files := [upload_of "*.json"; upload_of "*.png"] |}.

(** [for i in range(num_tasks): ...], from index [i] on for [n] rounds. *)
Fixpoint task_loop (base_points_per_task remainder : Z) (i : Z) (n : nat)
    (tasks : list task) (points_assigned : Z) : list task * Z :=
  match n with
  | O => (tasks, points_assigned)
  | S n' =>
      let task_points :=
        (base_points_per_task + (if i <? remainder then 1 else 0))%Z in
      task_loop base_points_per_task remainder (i + 1) n'
                (tasks ++ [make_task i task_points]) (points_assigned + task_points)
  end.

(** The number of tasks after the check against [task_points_min]. *)
Definition adjust_num_tasks (total_points num_tasks : Z) (task_points_min : option Z)
    : result Z :=
  match task_points_min with
  | None => Ok num_tasks
  | Some m =>
      max_tasks <- floordiv total_points m ;;
      Ok (if (max_tasks <? num_tasks)%Z then max_tasks else num_tasks)
  end.

Definition allocation_error (points_assigned total_points : Z) : exn :=
  {| exn_kind := OtherException;
     exn_text := ("Point allocation error: " ++ str_int points_assigned ++ " != "
                  ++ str_int total_points)%string |}.

Definition generate_tasks (total_points num_tasks : Z) (task_points_min : option Z)
    : result (list task) :=
  num_tasks <- adjust_num_tasks total_points num_tasks task_points_min ;;
  base_points_per_task <- floordiv total_points num_tasks ;;
  remainder <- modulo total_points num_tasks ;;
  let '(tasks, points_assigned) :=
    task_loop base_points_per_task remainder 0 (Z.to_nat num_tasks) [] 0 in
  if (points_assigned =? total_points)%Z then Ok tasks
  else Raise (allocation_error points_assigned total_points).

(** [[f"{i+1:04d}" for i in range(num_tasks)]], from index [i] on. *)
Fixpoint task_ids_from (i : Z) (n : nat) : list string :=
  match n with
  | O => []
  | S n' => format_04d (i + 1) :: task_ids_from (i + 1) n'
  end.

Definition double_quote : string := String (ascii_of_nat 34) EmptyString.

(** [merge_script.strip()] *)
Definition merge_script : string :=
  ("python3 -c " ++ double_quote ++ "
import json
import os
import math

# Get all result files
result_files = [f for f in os.listdir('.') if f.startswith('pi_result_task') and f.endswith('.json')]
print(f'Found {len(result_files)} result files')

# Load results from all tasks
results = []
for filename in result_files:
    with open(filename, 'r') as f:
        results.append(json.load(f))

if not results:
    print('No results found!')
    exit(1)

# Aggregate data
total_points = sum(r['total_points'] for r in results)
total_inside = sum(r['points_inside_circle'] for r in results)
pi_estimation = (total_inside / total_points) * 4
error = abs(pi_estimation - math.pi)

# Create aggregate result
aggregate = {
    'task_count': len(results),
    'total_points': total_points,
    'points_inside_circle': total_inside,
    'pi_estimation': pi_estimation,
    'true_pi': math.pi,
    'absolute_error': error,
    'relative_error_percent': error / math.pi * 100,
    'individual_results': results
}

# Save aggregate result
with open('aggregate_results.json', 'w') as f:
    json.dump(aggregate, f, indent=2)

print(f'Final Pi Estimation: {pi_estimation:.10f} (True Pi: {math.pi:.10f})')
print(f'Absolute Error: {error:.10f}')
print(f'Total Points: {total_points:,}')
print(f'Points Inside Circle: {total_inside:,}')
print(f'Ratio: {total_inside/total_points:.6f}')
print(f'Results saved to: aggregate_results.json')
" ++ double_quote)%string.

(** The merge task; [depends_on] holds the list of [task_ids]. *)
Record merge_task : Type := {
  merge_id : string;
  merge_display_name : string;
  merge_command_line : string;
  depends_on : list string;
  merge_output_files : list output_file
}.

Definition create_merge_task (num_tasks : Z) : merge_task :=
  {| merge_id := "merge-task";
     merge_display_name := "Merge Results";
     merge_command_line := merge_script;
     depends_on := task_ids_from 0 (Z.to_nat num_tasks);
     merge_output_files := [upload_of "aggregate_results.json"] |}.

(** The tasks numbered from index [i] on that run the given numbers of
    points. *)
Fixpoint tasks_with_points (i : Z) (points : list Z) : list task :=
  match points with
  | [] => []
  | p :: ps => make_task i p :: tasks_with_points (i + 1) ps
  end.

(** The points of the tasks of [n] rounds of the loop from index [i] on. *)
Fixpoint points_from (base_points_per_task remainder : Z) (i : Z) (n : nat) : list Z :=
  match n with
  | O => []
  | S n' =>
      (base_points_per_task + (if i <? remainder then 1 else 0))%Z
      :: points_from base_points_per_task remainder (i + 1) n'
  end.

(** The number an identifier of four or more digits stands for. *)
Definition id_number (s : string) : option Z :=
  option_map Z.of_uint (NilEmpty.uint_of_string s).

(** An element of the list [main] writes: a calculation task or the merge
    task. *)
Inductive task_spec : Type :=
| Calculation (t : task)
| Merge (m : merge_task).

(** The list [main] builds from its arguments before it writes it to the
    output file. *)
Definition main_tasks (total_points num_tasks min_points : Z) : result (list task_spec) :=
  tasks <- generate_tasks total_points num_tasks (Some min_points) ;;
  let merge_task := create_merge_task (py_len tasks) in
  Ok (map Calculation tasks ++ [Merge merge_task]).

(** The list for a hundred points over three tasks of at least ten
    points. *)
Definition sample_task_list : list task_spec :=
  map Calculation (tasks_with_points 0 [34%Z; 33%Z; 33%Z])
  ++ [Merge (create_merge_task 3)].

End GenerateTasks.

(* ================================================================== *)
(** * The matcher only returns words of the pattern *)

Section EngineFacts.

Variable db : unicode_data.

Lemma orelse_some (a b : option cursor) (c : cursor) :
  orelse a b = Some c -> a = Some c \/ b = Some c.
Proof. destruct a; simpl; intros H; [left | right]; assumption. Qed.

Lemma repeat_one_sound (cs : charset) (k : cont) (mk : option (nat * nat)) :
  forall s lo hi pv ps c',
    repeat_one db cs lo hi k pv ps mk s = Some c' ->
    exists w s' pv',
      s = w ++ s' /\ Forall (fun x => charset_mem db cs x = true) w
      /\ (lo <= length w)%nat
      /\ match hi with Some h => (length w <= h)%nat | None => True end
      /\ k {| prev := pv'; pos := ps + length w; rest := s'; mark := mk |} = Some c'.
Proof.
  assert (Hstop : forall s lo hi pv ps c',
             match lo with
             | O => k {| prev := pv; pos := ps; rest := s; mark := mk |}
             | S _ => None
             end = Some c' ->
             exists w s' pv',
               s = w ++ s' /\ Forall (fun x => charset_mem db cs x = true) w
               /\ (lo <= length w)%nat
               /\ match hi with Some h => (length w <= h)%nat | None => True end
               /\ k {| prev := pv'; pos := ps + length w; rest := s'; mark := mk |} = Some c').
  { intros s lo hi pv ps c' H. destruct lo; [|discriminate].
    exists [], s, pv. simpl. rewrite Nat.add_0_r.
    repeat split; auto. destruct hi; [lia | exact I]. }
  induction s as [|x s IH]; intros lo hi pv ps c' H.
  - apply (Hstop [] lo hi pv ps c'). destruct hi as [[|h]|]; exact H.
  - assert (Hmore : charset_mem db cs x = true ->
              orelse (repeat_one db cs (Nat.pred lo) (option_map Nat.pred hi) k
                                 (Some x) (S ps) mk s)
                     (match lo with
                      | O => k {| prev := pv; pos := ps; rest := x :: s; mark := mk |}
                      | S _ => None
                      end) = Some c' ->
              hi <> Some O ->
              exists w s' pv',
                x :: s = w ++ s' /\ Forall (fun y => charset_mem db cs y = true) w
                /\ (lo <= length w)%nat
                /\ match hi with Some h => (length w <= h)%nat | None => True end
                /\ k {| prev := pv'; pos := ps + length w; rest := s'; mark := mk |} = Some c').
    { intros Hx Ho Hhi. apply orelse_some in Ho. destruct Ho as [Ho | Ho].
      - apply IH in Ho. destruct Ho as (w & s' & pv' & -> & Hall & Hlo & Hh & Hk).
        exists (x :: w), s', pv'. simpl.
        replace (ps + S (length w))%nat with (S ps + length w)%nat by lia.
        repeat split; auto.
        + lia.
        + destruct hi as [[|h]|]; simpl in *; [congruence | lia | exact I].
      - apply (Hstop (x :: s) lo hi pv ps c'). exact Ho. }
    simpl in H. destruct hi as [[|h]|].
    + apply (Hstop (x :: s) lo (Some O) pv ps c'). exact H.
    + destruct (charset_mem db cs x) eqn:Hx.
      * apply Hmore; [reflexivity | exact H | discriminate].
      * apply (Hstop (x :: s) lo (Some (S h)) pv ps c'). exact H.
    + destruct (charset_mem db cs x) eqn:Hx.
      * apply Hmore; [reflexivity | exact H | discriminate].
      * apply (Hstop (x :: s) lo None pv ps c'). exact H.
Qed.

Lemma iter_req_sound (step : cont -> cont) (L : str -> Prop) :
  sound_step step L ->
  forall n, sound_step (iter_req step n)
              (fun w => exists ws, w = concat ws /\ Forall L ws /\ length ws = n).
Proof.
  intros Hs n. induction n as [|n IH]; intros k c c' H; simpl in H.
  - exists [], c. simpl. rewrite Nat.add_0_r. repeat split; auto.
    exists []. auto.
  - apply Hs in H. destruct H as (w1 & c1 & E1 & P1 & L1 & H).
    apply IH in H. destruct H as (w2 & c2 & E2 & P2 & (ws & -> & Hws & Hn) & H).
    exists (w1 ++ concat ws), c2. rewrite E1, E2, P2, P1, length_app, app_assoc.
    repeat split; auto; try lia.
    exists (w1 :: ws). simpl. repeat split; auto.
Qed.

Lemma iter_opt_sound (step : cont -> cont) (L : str -> Prop) :
  sound_step step L ->
  forall n, sound_step (iter_opt step n)
              (fun w => exists ws, w = concat ws /\ Forall L ws /\ (length ws <= n)%nat).
Proof.
  intros Hs n. induction n as [|n IH]; intros k c c' H; simpl in H.
  - exists [], c. simpl. rewrite Nat.add_0_r. repeat split; auto.
    exists []. auto.
  - apply orelse_some in H. destruct H as [H | H].
    + apply Hs in H. destruct H as (w1 & c1 & E1 & P1 & L1 & H).
      apply IH in H. destruct H as (w2 & c2 & E2 & P2 & (ws & -> & Hws & Hn) & H).
      exists (w1 ++ concat ws), c2. rewrite E1, E2, P2, P1, length_app, app_assoc.
      repeat split; auto; try lia.
      exists (w1 :: ws). simpl. repeat split; auto. lia.
    + exists [], c. simpl. rewrite Nat.add_0_r. repeat split; auto.
      exists []. simpl. repeat split; auto. lia.
Qed.

Lemma run_sound (r : regex) : sound_step (run db r) (Lang db r).
Proof.
  induction r as [ | cs | | a IHa b IHb | lo hi cs | lo hi body IH | body IH ];
    intros k c c' H; simpl in H.
  - exists [], c. simpl. rewrite Nat.add_0_r. auto.
  - destruct c as [pv ps s mk]. simpl in *. destruct s as [|x s]; [discriminate|].
    destruct (charset_mem db cs x) eqn:Hx; [|discriminate].
    exists [x], {| prev := Some x; pos := S ps; rest := s; mark := mk |}. simpl.
    repeat split; [lia | eauto | exact H].
  - destruct (at_boundary db c); [|discriminate].
    exists [], c. simpl. rewrite Nat.add_0_r. auto.
  - apply IHa in H. destruct H as (u & c1 & E1 & P1 & L1 & H).
    apply IHb in H. destruct H as (v & c2 & E2 & P2 & L2 & H).
    exists (u ++ v), c2. rewrite E1, E2, P2, P1, length_app, app_assoc.
    repeat split; auto; try lia. simpl. eauto.
  - apply repeat_one_sound in H. destruct H as (w & s' & pv' & E & Hall & Hlo & Hhi & H).
    exists w, {| prev := pv'; pos := pos c + length w; rest := s'; mark := mark c |}.
    simpl. repeat split; auto.
  - apply (iter_req_sound _ _ IH) in H.
    destruct H as (w1 & c1 & E1 & P1 & (ws1 & -> & F1 & N1) & H).
    apply (iter_opt_sound _ _ IH) in H.
    destruct H as (w2 & c2 & E2 & P2 & (ws2 & -> & F2 & N2) & H).
    exists (concat ws1 ++ concat ws2), c2. rewrite E1, E2, P2, P1, length_app, app_assoc.
    repeat split; auto; try lia.
    simpl. exists (ws1 ++ ws2). rewrite concat_app, length_app. repeat split.
    + apply Forall_app; auto.
    + lia.
    + lia.
  - apply IH in H. destruct H as (w & c1 & E & P & L & H).
    exists w, {| prev := prev c1; pos := pos c1; rest := rest c1;
                 mark := Some (pos c, pos c1) |}.
    simpl. repeat split; auto.
Qed.

(** A successful attempt stops after a word of the pattern. *)
Lemma re_match_sound (r : regex) (pv : option N) (s : list N) (c : cursor) :
  re_match db r pv s = Some c ->
  Lang db r (firstn (pos c) s) /\ s = firstn (pos c) s ++ rest c.
Proof.
  unfold re_match. intros H. apply run_sound in H.
  destruct H as (w & c1 & E & P & L & H). injection H as <-. simpl in *.
  rewrite P, E, firstn_app, firstn_all, Nat.sub_diag. simpl. rewrite app_nil_r. auto.
Qed.

(** An entry of the list of a group-free pattern is a word of the pattern
    and a substring of the text. *)
Lemma scan_sound (r : regex) :
  groups r = 0%nat ->
  forall s skip pv m,
    In m (scan db r skip pv s) ->
    Lang db r m /\ exists before after, s = before ++ m ++ after.
Proof.
  intros Hg. induction s as [|x s IH]; intros skip pv m Hin.
  - destruct skip; simpl in Hin; [|contradiction].
    destruct (re_match db r pv []) as [c|] eqn:Hm; [|contradiction].
    destruct Hin as [<- | []]. unfold findall_item. rewrite Hg.
    apply re_match_sound in Hm. destruct Hm as [HL E]. split; [exact HL|].
    exists [], (rest c). exact E.
  - assert (Htail : forall n pv', In m (scan db r n pv' s) ->
              Lang db r m /\ exists before after, x :: s = before ++ m ++ after).
    { intros n pv' H. apply IH in H. destruct H as [HL (b & a & ->)].
      split; [exact HL|]. exists (x :: b), a. reflexivity. }
    destruct skip; simpl in Hin; [|eapply Htail; eassumption].
    destruct (re_match db r pv (x :: s)) as [c|] eqn:Hm; [|eapply Htail; eassumption].
    destruct Hin as [<- | Hin]; [|eapply Htail; eassumption].
    unfold findall_item. rewrite Hg.
    apply re_match_sound in Hm. destruct Hm as [HL E]. split; [exact HL|].
    exists [], (rest c). exact E.
Qed.

Lemma re_findall_sound (r : regex) (text m : str) :
  groups r = 0%nat -> In m (re_findall db r text) ->
  Lang db r m /\ exists before after, text = before ++ m ++ after.
Proof. intros Hg. apply scan_sound. exact Hg. Qed.

End EngineFacts.

(* ================================================================== *)
(** * Words of a pattern: lengths and characters *)

Section LangFacts.

Variable db : unicode_data.

Lemma concat_min_length (L : str -> Prop) (n : nat) (ws : list str) :
  (forall w, L w -> n <= length w)%nat -> Forall L ws ->
  (length ws * n <= length (concat ws))%nat.
Proof.
  intros HL H. induction H as [|w ws Hw _ IH]; simpl; [lia|].
  rewrite length_app. specialize (HL w Hw). lia.
Qed.

Lemma min_width_le (r : regex) : forall w, Lang db r w -> (min_width r <= length w)%nat.
Proof.
  induction r as [ | cs | | a IHa b IHb | lo hi cs | lo hi body IH | body IH ];
    simpl; intros w H.
  - subst. simpl. lia.
  - destruct H as (x & -> & _). simpl. lia.
  - subst. simpl. lia.
  - destruct H as (u & v & -> & Hu & Hv). rewrite length_app.
    specialize (IHa u Hu). specialize (IHb v Hv). lia.
  - destruct H as (_ & H & _). exact H.
  - destruct H as (ws & -> & Hws & Hn & _).
    pose proof (concat_min_length (Lang db body) (min_width body) ws IH Hws) as Hc.
    apply Nat.le_trans with (length ws * min_width body)%nat; [|exact Hc].
    apply Nat.mul_le_mono_r. exact Hn.
  - apply IH. exact H.
Qed.

Lemma avoids_sound (x : N) (r : regex) :
  avoids db x r = true -> forall w, Lang db r w -> ~ In x w.
Proof.
  induction r as [ | cs | | a IHa b IHb | lo hi cs | lo hi body IH | body IH ];
    simpl; intros Ha w H Hin.
  - subst. contradiction.
  - destruct H as (y & -> & Hy). destruct Hin as [-> | []].
    rewrite Hy in Ha. discriminate.
  - subst. contradiction.
  - destruct H as (u & v & -> & Hu & Hv). apply andb_prop in Ha. destruct Ha as [Ha Hb].
    apply in_app_or in Hin. destruct Hin as [Hin | Hin].
    + exact (IHa Ha u Hu Hin).
    + exact (IHb Hb v Hv Hin).
  - destruct H as (H & _). rewrite Forall_forall in H. specialize (H x Hin).
    rewrite H in Ha. discriminate.
  - destruct H as (ws & -> & Hws & _). apply in_concat in Hin.
    destruct Hin as (w & Hw & Hin). rewrite Forall_forall in Hws.
    exact (IH Ha w (Hws w Hw) Hin).
  - exact (IH Ha w H Hin).
Qed.

(** The words of a literal string. *)
Lemma Lang_lits (s : string) (w : str) : Lang db (lits s) w -> w = str_of s.
Proof.
  unfold lits, str_of. revert w.
  induction (list_ascii_of_string s) as [|a l IH]; simpl; intros w H.
  - exact H.
  - destruct H as (u & v & -> & (x & -> & Hx) & Hv).
    unfold charset_mem in Hx. simpl in Hx. rewrite orb_false_r in Hx.
    apply N.eqb_eq in Hx. subst x. simpl. f_equal. apply IH. exact Hv.
Qed.

End LangFacts.

(* ================================================================== *)
(** * The string operations of the redaction *)

Lemma py_repeat_char (c : N) (n : Z) : py_repeat [c] n = repeat c (Z.to_nat n).
Proof.
  unfold py_repeat. induction (Z.to_nat n) as [|k IH]; simpl; [reflexivity|].
  rewrite IH. reflexivity.
Qed.

(** A count that is not positive gives the empty string. *)
Lemma py_repeat_nonpositive (s : str) (n : Z) : (n <= 0)%Z -> py_repeat s n = [].
Proof.
  intros H. unfold py_repeat. replace (Z.to_nat n) with 0%nat by lia. reflexivity.
Qed.

Lemma mask_count (s : str) (k : Z) :
  (0 <= k)%Z -> Z.to_nat (py_len s - k) = (length s - Z.to_nat k)%nat.
Proof. unfold py_len. lia. Qed.

(** [s[-k:]] keeps the last [k] characters, or all of a shorter string. *)
Lemma py_slice_from_neg (s : str) (k : positive) :
  py_slice_from s (Z.neg k) = skipn (length s - Pos.to_nat k) s.
Proof.
  unfold py_slice_from, clamp, py_len.
  replace (Z.neg k <? 0)%Z with true by (symmetry; apply Z.ltb_lt; lia).
  f_equal. lia.
Qed.

(** [s[0:k]] keeps the first [k] characters. *)
Lemma py_slice_prefix (s : str) (k : positive) :
  py_slice s 0 (Z.pos k) = firstn (Pos.to_nat k) s.
Proof.
  unfold py_slice, clamp, py_len. simpl.
  replace (Z.to_nat (Z.min (Z.max 0 0) (Z.of_nat (length s)))) with 0%nat by lia.
  simpl. rewrite Nat.sub_0_r.
  destruct (Nat.le_gt_cases (Pos.to_nat k) (length s)) as [Hle | Hgt].
  - f_equal. lia.
  - replace (Z.to_nat (Z.min (Z.max (Z.pos k) 0) (Z.of_nat (length s))))
      with (length s) by lia.
    rewrite !firstn_all2 by lia. reflexivity.
Qed.

Lemma str_item_first (x : N) (s : str) : str_item (x :: s) 0 = Ok x.
Proof. reflexivity. Qed.

Lemma str_item_last (s : str) (x : N) : str_item (s ++ [x]) (-1) = Ok x.
Proof.
  unfold str_item, py_item, py_len. rewrite length_app. simpl.
  replace (Z.of_nat (length s + 1) + -1 <? 0)%Z with false
    by (symmetry; apply Z.ltb_ge; lia).
  replace (Z.to_nat (Z.of_nat (length s + 1) + -1)) with (length s) by lia.
  rewrite nth_error_app2 by lia. rewrite Nat.sub_diag. reflexivity.
Qed.

(** [split] of a string with a single separator. *)
Lemma py_split_none (sep : N) (s : str) : ~ In sep s -> py_split sep s = [s].
Proof.
  induction s as [|c s IH]; simpl; intros H; [reflexivity|].
  destruct (N.eqb_spec c sep) as [-> | Hne]; [exfalso; apply H; left; reflexivity|].
  rewrite IH by (intros Hin; apply H; right; exact Hin). reflexivity.
Qed.

Lemma py_split_once (sep : N) (a b : str) :
  ~ In sep a -> ~ In sep b -> py_split sep (a ++ sep :: b) = [a; b].
Proof.
  intros Ha Hb. induction a as [|c a IH]; simpl.
  - rewrite N.eqb_refl. rewrite py_split_none by exact Hb. reflexivity.
  - destruct (N.eqb_spec c sep) as [-> | Hne]; [exfalso; apply Ha; left; reflexivity|].
    rewrite IH by (intros Hin; apply Ha; right; exact Hin). reflexivity.
Qed.

(** A mask over a part that holds another character than [*] changes the
    string. *)
Lemma mask_differs (a hidden b : str) :
  (exists x, In x hidden /\ x <> star) ->
  a ++ repeat star (length hidden) ++ b <> a ++ hidden ++ b.
Proof.
  intros (x & Hin & Hx) E. apply app_inv_head in E. apply app_inv_tail in E.
  rewrite <- E in Hin. apply repeat_spec in Hin. contradiction.
Qed.

(* ================================================================== *)
(** * The three branches of the redaction *)

Lemma redact_last_four (pattern_name : string) (m : str) (acc : list str) :
  String.eqb pattern_name "Email" = false ->
  str_in pattern_name ["SSN"; "Credit Card"; "Phone Number"]%string = true ->
  redact_match pattern_name m acc
  = Ok (acc ++ [repeat star (length m - 4) ++ skipn (length m - 4) m]).
Proof.
  intros He Hin. unfold redact_match. rewrite He, Hin.
  rewrite py_repeat_char, mask_count, py_slice_from_neg by lia. reflexivity.
Qed.

Lemma redact_three_and_three (pattern_name : string) (m : str) (acc : list str) :
  String.eqb pattern_name "Email" = false ->
  str_in pattern_name ["SSN"; "Credit Card"; "Phone Number"]%string = false ->
  (6 < length m)%nat ->
  redact_match pattern_name m acc
  = Ok (acc ++ [firstn 3 m ++ repeat star (length m - 6) ++ skipn (length m - 3) m]).
Proof.
  intros He Hin Hlen. unfold redact_match. rewrite He, Hin.
  replace (6 <? py_len m)%Z with true by (symmetry; apply Z.ltb_lt; unfold py_len; lia).
  cbn [bind]. rewrite py_repeat_char, mask_count, py_slice_prefix, py_slice_from_neg by lia.
  reflexivity.
Qed.

Lemma last_snoc (s : str) (x d : N) : List.last (s ++ [x]) d = x.
Proof. apply last_last. Qed.

Lemma redact_email (local domain : str) (acc : list str) :
  local <> [] -> ~ In (chr "@") local -> ~ In (chr "@") domain ->
  redact_match "Email" (local ++ chr "@" :: domain) acc
  = Ok (acc ++ [hd 0%N local :: repeat star (length local - 2)
                  ++ List.last local 0%N :: chr "@" :: domain]).
Proof.
  intros Hne Hl Hd. unfold redact_match. rewrite String.eqb_refl.
  rewrite py_split_once by assumption.
  change (1 <? py_len [local; domain])%Z with true. cbv iota.
  change (list_item [local; domain] 0) with (Ok (A := str) local).
  change (list_item [local; domain] 1) with (Ok (A := str) domain).
  cbn [bind].
  destruct (exists_last Hne) as (front & x & E).
  assert (Hlast : str_item local (-1) = Ok x) by (rewrite E; apply str_item_last).
  assert (Hl2 : List.last local 0%N = x) by (rewrite E; apply last_snoc).
  destruct local as [|c local']; [contradiction|].
  rewrite str_item_first. cbn [bind]. rewrite Hlast. cbn [bind].
  rewrite py_repeat_char, mask_count by lia.
  rewrite Hl2. reflexivity.
Qed.

(** The email sample against the match. *)
Lemma email_sample_same (local domain : str) :
  local <> [] -> ~ In star local ->
  (hd 0%N local :: repeat star (length local - 2) ++ List.last local 0%N :: chr "@" :: domain
   = local ++ chr "@" :: domain)
  <-> length local = 2%nat.
Proof.
  intros Hne Hs. destruct local as [|c1 [|c2 [|c3 l]]].
  - contradiction.
  - simpl. split; [|discriminate]. intros E. apply (f_equal (@length N)) in E.
    simpl in E. lia.
  - simpl. split; reflexivity.
  - split; [|simpl; discriminate]. intros E. exfalso. simpl in E.
    injection E as E2 _. apply Hs. right. left. symmetry. exact E2.
Qed.

(* ================================================================== *)
(** * The redaction on the matches of the registry *)

Lemma split_last_four (m : str) :
  (4 <= length m)%nat ->
  m = firstn (length m - 4) m ++ skipn (length m - 4) m
  /\ length (firstn (length m - 4) m) = (length m - 4)%nat
  /\ length (skipn (length m - 4) m) = 4%nat.
Proof.
  intros H. rewrite firstn_skipn, length_firstn, length_skipn. repeat split; lia.
Qed.

Lemma split_three_and_three (m : str) :
  (6 <= length m)%nat ->
  m = firstn 3 m ++ firstn (length m - 6) (skipn 3 m) ++ skipn (length m - 3) m
  /\ length (firstn 3 m) = 3%nat
  /\ length (firstn (length m - 6) (skipn 3 m)) = (length m - 6)%nat
  /\ length (skipn (length m - 3) m) = 3%nat.
Proof.
  intros H. rewrite !length_firstn, !length_skipn. repeat split; try lia.
  replace (length m - 3)%nat with ((length m - 6) + 3)%nat by lia.
  rewrite <- skipn_skipn, firstn_skipn, firstn_skipn. reflexivity.
Qed.

Lemma incl_firstn {A : Type} (n : nat) (l : list A) : incl (firstn n l) l.
Proof.
  intros x H. rewrite <- (firstn_skipn n l). apply in_or_app. left. exact H.
Qed.

Lemma incl_skipn {A : Type} (n : nat) (l : list A) : incl (skipn n l) l.
Proof.
  intros x H. rewrite <- (firstn_skipn n l). apply in_or_app. right. exact H.
Qed.

Lemma some_not_star (m hidden : str) :
  ~ In star m -> incl hidden m -> (0 < length hidden)%nat ->
  exists x, In x hidden /\ x <> star.
Proof.
  intros Hs Hi Hl. destruct hidden as [|x h]; [simpl in Hl; lia|].
  exists x. split; [left; reflexivity|]. intros ->. apply Hs, Hi. left. reflexivity.
Qed.

Section RegistryFacts.

Variable db : unicode_data.

(** SSN and Credit Card: at least five characters, none of them a [*]. *)
Lemma last_four_masks (r : regex) (pattern_name : string) (text m : str) (acc : list str) :
  groups r = 0%nat -> (5 <= min_width r)%nat -> avoids db star r = true ->
  String.eqb pattern_name "Email" = false ->
  str_in pattern_name ["SSN"; "Credit Card"; "Phone Number"]%string = true ->
  In m (re_findall db r text) ->
  exists red, redact_match pattern_name m acc = Ok (acc ++ [red])
              /\ keeps_last_four m red /\ red <> m.
Proof.
  intros Hg Hw Ha He Hn Hin.
  destruct (re_findall_sound db r text m Hg Hin) as [HL _].
  pose proof (min_width_le db r m HL) as Hlen.
  pose proof (avoids_sound db star r Ha m HL) as Hstar.
  destruct (split_last_four m) as (E & Lh & Ls); [lia|].
  exists (repeat star (length m - 4) ++ skipn (length m - 4) m).
  split; [apply redact_last_four; assumption|]. split.
  - exists (firstn (length m - 4) m), (skipn (length m - 4) m).
    rewrite Lh. auto.
  - intros Heq.
    apply (mask_differs [] (firstn (length m - 4) m) (skipn (length m - 4) m)).
    + apply some_not_star with (m := m); [exact Hstar | apply incl_firstn | lia].
    + simpl. rewrite Lh, <- E. exact Heq.
Qed.

(** The other categories: at least seven characters, and one of the masked
    ones is not a [*]. *)
Lemma three_and_three_masks (r : regex) (pattern_name : string) (text m : str)
    (acc : list str) :
  groups r = 0%nat -> (7 <= min_width r)%nat ->
  (forall w, Lang db r w ->
             exists x, In x (firstn (length w - 6) (skipn 3 w)) /\ x <> star) ->
  String.eqb pattern_name "Email" = false ->
  str_in pattern_name ["SSN"; "Credit Card"; "Phone Number"]%string = false ->
  In m (re_findall db r text) ->
  exists red, redact_match pattern_name m acc = Ok (acc ++ [red])
              /\ keeps_three_and_three m red /\ red <> m.
Proof.
  intros Hg Hw Hh He Hn Hin.
  destruct (re_findall_sound db r text m Hg Hin) as [HL _].
  pose proof (min_width_le db r m HL) as Hlen.
  destruct (split_three_and_three m) as (E & La & Lh & Lb); [lia|].
  exists (firstn 3 m ++ repeat star (length m - 6) ++ skipn (length m - 3) m).
  split; [apply redact_three_and_three; (assumption || lia)|]. split.
  - exists (firstn 3 m), (firstn (length m - 6) (skipn 3 m)), (skipn (length m - 3) m).
    rewrite Lh. auto.
  - intros Heq.
    apply (mask_differs (firstn 3 m) (firstn (length m - 6) (skipn 3 m))
                         (skipn (length m - 3) m)).
    + apply Hh. exact HL.
    + rewrite Lh, <- E. exact Heq.
Qed.

(** A pattern without [*] has a masked character that is not a [*]. *)
Lemma hidden_of_star_free (r : regex) :
  (7 <= min_width r)%nat -> avoids db star r = true ->
  forall w, Lang db r w ->
            exists x, In x (firstn (length w - 6) (skipn 3 w)) /\ x <> star.
Proof.
  intros Hw Ha w HL.
  pose proof (min_width_le db r w HL) as Hlen.
  apply some_not_star with (m := w).
  - exact (avoids_sound db star r Ha w HL).
  - intros x Hx. apply (incl_skipn 3 w). apply (incl_firstn (length w - 6) _). exact Hx.
  - rewrite length_firstn, length_skipn. lia.
Qed.

(** A connection string is masked from its fourth character, an [a], on. *)
Lemma hidden_of_connection_string :
  forall w, Lang db re_azure_connection_string w ->
            exists x, In x (firstn (length w - 6) (skipn 3 w)) /\ x <> star.
Proof.
  intros w HL. pose proof (min_width_le db _ w HL) as Hlen.
  change (min_width re_azure_connection_string) with 58%nat in Hlen.
  destruct HL as (u & v & -> & Hu & _). apply Lang_lits in Hu. subst u.
  exists (chr "a"). split; [|discriminate].
  rewrite length_app in *.
  remember (length (str_of "DefaultEndpointsProtocol=https;AccountName=") + length v - 6)%nat
    as k eqn:Hk.
  destruct k as [|k]; [simpl in Hk, Hlen; lia|].
  left. reflexivity.
Qed.

(** The two sides of the [@] of an email match. *)
Lemma email_parts (m : str) :
  Lang db re_email m ->
  exists local domain,
    m = local ++ chr "@" :: domain /\ local <> []
    /\ ~ In (chr "@") local /\ ~ In star local /\ ~ In (chr "@") domain.
Proof.
  intros HL.
  destruct HL as (u0 & v0 & -> & -> & (local & v1 & -> & Hlocal & (u2 & domain & -> & Hat & Hdom))).
  destruct Hat as (x & -> & Hx).
  unfold charset_mem in Hx. simpl in Hx. rewrite orb_false_r in Hx.
  apply N.eqb_eq in Hx. subst x.
  exists local, domain. simpl. repeat split.
  - intros ->. destruct Hlocal as (_ & Hlen & _). simpl in Hlen. lia.
  - apply (avoids_sound db (chr "@") (at_least 1 email_local)); [reflexivity | exact Hlocal].
  - apply (avoids_sound db star (at_least 1 email_local)); [reflexivity | exact Hlocal].
  - apply (avoids_sound db (chr "@")
             (seq [at_least 1 email_host; lit "."; at_least 2 email_tld; Boundary]));
      [reflexivity | exact Hdom].
Qed.

Lemma email_masks (text m : str) (acc : list str) :
  In m (re_findall db re_email text) ->
  exists red, redact_match "Email" m acc = Ok (acc ++ [red]) /\ keeps_local_ends m red.
Proof.
  intros Hin.
  destruct (re_findall_sound db re_email text m eq_refl Hin) as [HL _].
  destruct (email_parts m HL) as (local & domain & -> & Hne & Hat & Hstar & Hdom).
  eexists. split; [apply redact_email; assumption|].
  exists local, domain. repeat split; auto; apply email_sample_same; assumption.
Qed.

End RegistryFacts.

(* ================================================================== *)
(** * The content scanner never raises *)

(** The side conditions of the per-category lemmas, on a pattern of the
    registry. *)
Ltac registry_side db :=
  first [ assumption
        | reflexivity
        | simpl; lia
        | apply (hidden_of_star_free db); [simpl; lia | reflexivity]
        | apply (hidden_of_connection_string db) ].

Section Totality.

Variable db : unicode_data.

Lemma redact_matches_ok (pattern_name : string) (ms : list str) :
  (forall m acc, In m ms -> exists acc', redact_match pattern_name m acc = Ok acc') ->
  forall acc, exists out, redact_matches pattern_name ms acc = Ok out.
Proof.
  induction ms as [|m ms IH]; intros H acc; simpl.
  - exists acc. reflexivity.
  - destruct (H m acc (or_introl eq_refl)) as (acc' & ->). cbn [bind].
    apply IH. intros m' a Hin. apply H. right. exact Hin.
Qed.

Lemma scan_pattern_ok (text : str) (pattern_name : string) (r : regex) (f : findings_map) :
  (forall m acc, In m (re_findall db r text) ->
                 exists acc', redact_match pattern_name m acc = Ok acc') ->
  exists f', scan_pattern db text pattern_name r f = Ok f'.
Proof.
  intros H. unfold scan_pattern.
  destruct (re_findall db r text) as [|m ms] eqn:E.
  - exists f. reflexivity.
  - destruct (redact_matches_ok pattern_name (m :: ms) H []) as (out & ->).
    cbn [bind]. eexists. reflexivity.
Qed.

Lemma scan_patterns_ok (text : str) (patterns : dict regex) :
  Forall (fun p => forall m acc, In m (re_findall db (snd p) text) ->
                     exists acc', redact_match (fst p) m acc = Ok acc') patterns ->
  forall f, exists f', scan_patterns db text patterns f = Ok f'.
Proof.
  induction 1 as [|[n r] ps Hp _ IH]; intros f; simpl.
  - exists f. reflexivity.
  - destruct (scan_pattern_ok text n r f Hp) as (f1 & ->). cbn [bind]. apply IH.
Qed.

(** On the matches of its own pattern, every branch of the redaction
    returns. *)
Lemma registry_redacts (text : str) :
  Forall (fun p => forall m acc, In m (re_findall db (snd p) text) ->
                     exists acc', redact_match (fst p) m acc = Ok acc') PII_PATTERNS.
Proof.
  unfold PII_PATTERNS.
  repeat apply Forall_cons; try apply Forall_nil; simpl fst; simpl snd; intros m acc Hin.
  - eexists. apply redact_last_four; reflexivity.
  - eexists. apply redact_last_four; reflexivity.
  - destruct (email_masks db text m acc Hin) as (red & -> & _). eexists. reflexivity.
  - eexists. apply redact_last_four; reflexivity.
  - destruct (three_and_three_masks db re_passport "Passport Number" text m acc)
      as (red & -> & _); [registry_side db .. | eexists; reflexivity].
  - destruct (three_and_three_masks db re_driver_license "US Driver License" text m acc)
      as (red & -> & _); [registry_side db .. | eexists; reflexivity].
  - destruct (three_and_three_masks db re_ip_address "IP Address" text m acc)
      as (red & -> & _); [registry_side db .. | eexists; reflexivity].
  - destruct (three_and_three_masks db re_aws_access_key "AWS Access Key" text m acc)
      as (red & -> & _); [registry_side db .. | eexists; reflexivity].
  - destruct (three_and_three_masks db re_azure_connection_string
                "Azure Connection String" text m acc)
      as (red & -> & _); [registry_side db .. | eexists; reflexivity].
Qed.

Lemma scan_text_for_pii_ok (text : str) : exists f, scan_text_for_pii db text = Ok f.
Proof. apply scan_patterns_ok, registry_redacts. Qed.

End Totality.

(* ================================================================== *)
(** * Claims on the content scanner *)

(** C10.  [scan_text_for_pii] returns a findings map for every text; no
    branch of the redaction raises.  A mask ['*' * n] has [max(n, 0)]
    characters, so a count that is not positive masks nothing.  The branch of
    SSN, Credit Card and Phone Number returns for every string, also one of
    fewer than four characters (an empty or short text of the group of the
    Phone Number pattern): the mask is then empty and the sample is the
    string itself. *)
Theorem scan_text_for_pii_total :
  forall (db : unicode_data) (text : str),
    (exists f, scan_text_for_pii db text = Ok f)
    /\ (forall n : Z, py_repeat [star] n = repeat star (Z.to_nat (Z.max n 0)))
    /\ (forall pattern_name m acc,
          str_in pattern_name ["SSN"; "Credit Card"; "Phone Number"]%string = true ->
          redact_match pattern_name m acc
          = Ok (acc ++ [py_repeat [star] (py_len m - 4) ++ py_slice_from m (-4)])
          /\ ((length m <= 4)%nat ->
              py_repeat [star] (py_len m - 4) = []
              /\ redact_match pattern_name m acc = Ok (acc ++ [m]))).
Proof.
  intros db text. split; [apply scan_text_for_pii_ok|].
  split; [intros n; rewrite py_repeat_char; f_equal; lia|].
  intros pattern_name m acc Hin.
  assert (He : String.eqb pattern_name "Email" = false).
  { simpl in Hin. destruct (String.eqb_spec pattern_name "Email") as [-> |]; [|reflexivity].
    discriminate. }
  assert (E : redact_match pattern_name m acc
              = Ok (acc ++ [py_repeat [star] (py_len m - 4) ++ py_slice_from m (-4)])).
  { unfold redact_match. rewrite He, Hin. reflexivity. }
  split; [exact E|]. intros Hlen.
  assert (Hrep : py_repeat [star] (py_len m - 4) = []).
  { apply py_repeat_nonpositive. unfold py_len. lia. }
  split; [exact Hrep|]. rewrite E, Hrep, py_slice_from_neg.
  replace (length m - Pos.to_nat 4)%nat with 0%nat by lia. reflexivity.
Qed.

(** C3, as amended.  For every pattern of the registry but Phone Number and
    every entry of its match list, the redaction appends one sample.  For
    SSN and Credit Card the sample keeps the last four characters and masks
    every character before them; for Email it keeps the first and the last
    character of the part before the [@] and everything from the [@] on; for
    the other categories it keeps the first three and the last three
    characters and masks every character between.  The sample differs from
    the match, except for an email whose part before the [@] has exactly two
    characters, which is returned unmasked. *)
Theorem redaction_of_registry_matches :
  forall (db : unicode_data) (pattern_name : string) (pattern : regex)
         (text m : str) (acc : list str),
    In (pattern_name, pattern) PII_PATTERNS ->
    pattern_name <> "Phone Number"%string ->
    In m (re_findall db pattern text) ->
    exists red,
      redact_match pattern_name m acc = Ok (acc ++ [red]) /\ reveals pattern_name m red.
Proof.
  intros db pattern_name pattern text m acc Hreg Hphone Hin.
  unfold PII_PATTERNS in Hreg. simpl in Hreg.
  destruct Hreg as [E|[E|[E|[E|[E|[E|[E|[E|[E|[]]]]]]]]]];
    injection E as <- <-; unfold reveals; simpl String.eqb; simpl str_in; cbv iota.
  - apply (last_four_masks db re_ssn "SSN" text); registry_side db.
  - apply (last_four_masks db re_credit_card "Credit Card" text); registry_side db.
  - apply (email_masks db text). exact Hin.
  - contradiction Hphone. reflexivity.
  - apply (three_and_three_masks db re_passport "Passport Number" text);
      registry_side db.
  - apply (three_and_three_masks db re_driver_license "US Driver License" text);
      registry_side db.
  - apply (three_and_three_masks db re_ip_address "IP Address" text); registry_side db.
  - apply (three_and_three_masks db re_aws_access_key "AWS Access Key" text);
      registry_side db.
  - apply (three_and_three_masks db re_azure_connection_string
             "Azure Connection String" text); registry_side db.
Qed.

(** C2, as amended.  On the text [SSN: 123-45-6789] the findings map has one
    entry, for SSN, with count 1 and the single sample [*******6789]: the
    match has eleven characters, the two separators among them, so seven are
    masked. *)
Theorem scan_ssn_scenario :
  forall db : unicode_data,
    scan_text_for_pii db (str_of "SSN: 123-45-6789")
    = Ok [("SSN"%string, {| count := 1; samples := [str_of "*******6789"] |})].
Proof. intros db. vm_compute. reflexivity. Qed.

(** C2, as stated, fails: the sample is not [*****6789]. *)
Lemma scan_ssn_scenario_five_stars_fails :
  (forall db : unicode_data,
     scan_text_for_pii db (str_of "SSN: 123-45-6789")
     = Ok [("SSN"%string, {| count := 1; samples := [str_of "*******6789"] |})])
  /\ str_of "*******6789" <> str_of "*****6789".
Proof. split; [intros db; vm_compute; reflexivity | discriminate]. Qed.

(** C3, as stated, fails on an email whose part before the [@] has two
    characters: the match list of the Email pattern on [ab@example.com] is
    that string, and its redacted sample is the same string. *)
Lemma email_two_character_local_part_unmasked :
  (forall db : unicode_data,
     re_findall db re_email (str_of "ab@example.com") = [str_of "ab@example.com"])
  /\ redact_match "Email" (str_of "ab@example.com") [] = Ok [str_of "ab@example.com"]
  /\ (forall db : unicode_data,
        scan_text_for_pii db (str_of "ab@example.com")
        = Ok [("Email"%string, {| count := 1; samples := [str_of "ab@example.com"] |})]).
Proof.
  split; [intros db; vm_compute; reflexivity|].
  split; [vm_compute; reflexivity | intros db; vm_compute; reflexivity].
Qed.

(** The amended C3 at the SSN of the scenario. *)
Lemma redaction_of_registry_matches_witness :
  exists red,
    redact_match "SSN" (str_of "123-45-6789") [] = Ok ([] ++ [red])
    /\ reveals "SSN" (str_of "123-45-6789") red.
Proof.
  apply (redaction_of_registry_matches ascii_only "SSN" re_ssn (str_of "SSN: 123-45-6789")).
  - left. reflexivity.
  - discriminate.
  - vm_compute. left. reflexivity.
Defined.

(** C1 at the text [555-123-4567]: the Phone Number pattern matches the whole
    text, and the entry of the match list is the text of its optional group,
    the empty string; so is the sample.  With a country code the entry is the
    country code and the space after it. *)
Theorem phone_entries_are_group_texts :
  forall db : unicode_data,
    option_map pos (re_match db re_phone None (str_of "555-123-4567")) = Some 12%nat
    /\ re_findall db re_phone (str_of "555-123-4567") = [[]]
    /\ scan_text_for_pii db (str_of "555-123-4567")
       = Ok [("Phone Number"%string, {| count := 1; samples := [[]] |})]
    /\ re_findall db re_phone (str_of "call x+1 555-123-4567") = [str_of "+1 "].
Proof. intros db. vm_compute. repeat split; reflexivity. Qed.

(* ================================================================== *)
(** * Claims on the object scanner *)

(** C9.  In every dictionary [scan_blob] returns, read as its caller reads it
    (a missing ["has_pii"] is [False], a missing ["findings"] is the empty
    map): [has_pii] holds exactly when the findings map is not empty; and
    when [scanned] is [False] the findings map is empty and a reason is
    set. *)
Theorem scan_blob_outcome_invariant :
  forall (db : unicode_data) (client : blob_client) (max_size_mb : Z),
    (get_has_pii (fst (scan_blob db client max_size_mb)) = true
     <-> get_findings (fst (scan_blob db client max_size_mb)) <> [])
    /\ (scanned (fst (scan_blob db client max_size_mb)) = false ->
        get_findings (fst (scan_blob db client max_size_mb)) = []
        /\ exists why, reason (fst (scan_blob db client max_size_mb)) = Some why).
Proof.
  intros db client max_size_mb.
  assert (Hskip : forall o : scan_outcome,
             findings o = None -> has_pii o = None -> scanned o = false ->
             (exists why, reason o = Some why) ->
             (get_has_pii o = true <-> get_findings o <> [])
             /\ (scanned o = false -> get_findings o = [] /\ exists why, reason o = Some why)).
  { intros o Hf Hp Hs Hr. unfold get_has_pii, get_findings. rewrite Hf, Hp.
    split; [split; [discriminate | intros H; contradiction H; reflexivity]|].
    intros _. split; [reflexivity | exact Hr]. }
  unfold scan_blob.
  destruct (get_blob_properties client) as [properties | e];
    [|apply Hskip; simpl; eauto].
  destruct (max_size_mb * 1024 * 1024 <? size properties)%Z;
    [apply Hskip; simpl; eauto|].
  destruct (download_blob client) as [stream | e]; [|apply Hskip; simpl; eauto].
  destruct (readall stream) as [content | e]; [|apply Hskip; simpl; eauto].
  destruct (utf8_decode content) as [text_content|]; [|apply Hskip; simpl; eauto].
  destruct (scan_text_for_pii db text_content) as [pii_findings | e].
  - simpl. unfold get_has_pii, get_findings. simpl. split; [|discriminate].
    destruct pii_findings as [|p l]; simpl.
    + split; [discriminate | intros H; contradiction H; reflexivity].
    + split; [discriminate | intros _].
      unfold py_len. apply Z.ltb_lt. simpl length. lia.
  - destruct (exn_kind e); apply Hskip; simpl; eauto.
Qed.

(** C7, as amended.  When the properties of a blob report more bytes than
    [max_size_mb * 1024 * 1024], [scan_blob] returns [scanned = False], the
    reason [File too large] (with a capital F) and the size in megabytes; it
    has asked for the properties and has done nothing else: no download, no
    content scan. *)
Theorem scan_blob_too_large :
  forall (db : unicode_data) (client : blob_client) (max_size_mb : Z)
         (properties : blob_properties),
    get_blob_properties client = Ok properties ->
    (max_size_mb * 1024 * 1024 < size properties)%Z ->
    scan_blob db client max_size_mb
    = ({| scanned := false; reason := Some "File too large"%string;
          size_mb := Some (megabytes (size properties));
          findings := None; has_pii := None |},
       [GetBlobProperties]).
Proof.
  intros db client max_size_mb properties Hp Hsize. unfold scan_blob. rewrite Hp.
  apply Z.ltb_lt in Hsize. rewrite Hsize. reflexivity.
Qed.

(** The blob of 15 MB against a limit of 10 MB. *)
Lemma scan_blob_too_large_witness :
  (10 * 1024 * 1024 < 15728640)%Z
  /\ forall db : unicode_data,
       scan_blob db blob_of_15_mb 10
       = ({| scanned := false; reason := Some "File too large"%string;
             size_mb := Some (megabytes 15728640); findings := None; has_pii := None |},
          [GetBlobProperties]).
Proof.
  split; [lia|]. intros db.
  apply (scan_blob_too_large db blob_of_15_mb 10 {| size := 15728640 |});
    [reflexivity | simpl; lia].
Defined.

(** C7, as stated, fails: the reason is not the string [file too large]. *)
Lemma scan_blob_too_large_reason_is_capitalised :
  (forall db : unicode_data,
     reason (fst (scan_blob db blob_of_15_mb 10)) = Some "File too large"%string)
  /\ Some "File too large"%string <> Some "file too large"%string.
Proof. split; [intros db; reflexivity | discriminate]. Qed.

(** C8, as amended.  When the bytes read from a blob within the size limit
    are not UTF-8 text, [scan_blob] returns [scanned = False], the reason
    [Not a text file] (with a capital N) and the size in megabytes, and sets
    neither ["has_pii"] nor ["findings"]: the caller reads them as [False] and
    as the empty map.  The content scanner is not run. *)
Theorem scan_blob_not_text :
  forall (db : unicode_data) (client : blob_client) (max_size_mb : Z)
         (properties : blob_properties) (stream : stream_downloader)
         (content : list byte),
    get_blob_properties client = Ok properties ->
    (size properties <= max_size_mb * 1024 * 1024)%Z ->
    download_blob client = Ok stream ->
    readall stream = Ok content ->
    utf8_decode content = None ->
    scan_blob db client max_size_mb
    = ({| scanned := false; reason := Some "Not a text file"%string;
          size_mb := Some (megabytes (size properties));
          findings := None; has_pii := None |},
       [GetBlobProperties; DownloadBlob; ReadAll])
    /\ get_has_pii (fst (scan_blob db client max_size_mb)) = false
    /\ get_findings (fst (scan_blob db client max_size_mb)) = [].
Proof.
  intros db client max_size_mb properties stream content Hp Hsize Hd Hr Hu.
  assert (E : scan_blob db client max_size_mb
              = (not_text_outcome properties, [GetBlobProperties; DownloadBlob; ReadAll])).
  { unfold scan_blob. rewrite Hp.
    replace (max_size_mb * 1024 * 1024 <? size properties)%Z with false
      by (symmetry; apply Z.ltb_ge; exact Hsize).
    rewrite Hd, Hr, Hu. reflexivity. }
  rewrite E. repeat split.
Qed.

(** The four bytes [ff fe 00 01] against a limit of 10 MB. *)
Lemma scan_blob_not_text_witness :
  utf8_decode [xff; xfe; x00; x01] = None
  /\ forall db : unicode_data,
       scan_blob db binary_blob 10
       = ({| scanned := false; reason := Some "Not a text file"%string;
             size_mb := Some (megabytes 4); findings := None; has_pii := None |},
          [GetBlobProperties; DownloadBlob; ReadAll])
       /\ get_has_pii (fst (scan_blob db binary_blob 10)) = false
       /\ get_findings (fst (scan_blob db binary_blob 10)) = [].
Proof.
  split; [reflexivity|]. intros db.
  apply (scan_blob_not_text db binary_blob 10 {| size := 4 |}
           {| readall := Ok [xff; xfe; x00; x01] |} [xff; xfe; x00; x01]);
    (reflexivity || (simpl; lia)).
Defined.

(** C8, as stated, fails: the reason is not the string [not a text file]. *)
Lemma scan_blob_not_text_reason_is_capitalised :
  (forall db : unicode_data,
     reason (fst (scan_blob db binary_blob 10)) = Some "Not a text file"%string)
  /\ Some "Not a text file"%string <> Some "not a text file"%string.
Proof. split; [intros db; reflexivity | discriminate]. Qed.

(* ================================================================== *)
(** * The counters of the account walk *)

Section WalkFacts.

Variable db : unicode_data.
Variables max_size_mb scan_depth : Z.

(** One [scan_blob]: both dictionaries count the same, and a blob with PII is
    a scanned blob. *)
Lemma record_scan_counts (blob : blob_item) (o : scan_outcome)
    (c : container_results) (r : account_results) :
  let c' := fst (record_scan blob o c r) in
  let r' := snd (record_scan blob o c r) in
  (pii_found_count r' - pii_found_count r = blobs_with_pii c' - blobs_with_pii c
   /\ 0 <= blobs_with_pii c' - blobs_with_pii c
      <= c_blobs_scanned c' - c_blobs_scanned c
   /\ c_blobs_scanned c' - c_blobs_scanned c <= 1)%Z.
Proof.
  unfold record_scan. destruct (scanned o); [destruct (get_has_pii o)|]; simpl; lia.
Qed.

(** The loop over the blobs of one container. *)
Lemma scan_blobs_counts (blobs : listing blob_item) :
  forall (scan_count : Z) (c : container_results) (r : account_results)
         (examined : list string),
    let w := scan_blobs db max_size_mb scan_depth blobs scan_count c r examined in
    (pii_found_count (w_results w) - pii_found_count r
     = blobs_with_pii (w_container w) - blobs_with_pii c
     /\ 0 <= blobs_with_pii (w_container w) - blobs_with_pii c
        <= c_blobs_scanned (w_container w) - c_blobs_scanned c
     /\ c_blobs_scanned (w_container w) - c_blobs_scanned c <= w_scan_count w - scan_count
     /\ w_scan_count w - scan_count = py_len (w_examined w) - py_len examined
     /\ scan_count <= w_scan_count w <= Z.max scan_count scan_depth)%Z.
Proof.
  induction blobs as [|blob more IH|e]; intros scan_count c r examined; simpl.
  - lia.
  - destruct (scan_depth <=? scan_count)%Z eqn:Hcap; simpl; [lia|].
    apply Z.leb_gt in Hcap.
    pose proof (record_scan_counts blob
                  (fst (scan_blob db (client_of blob) max_size_mb)) c r) as Hrec.
    destruct (record_scan blob (fst (scan_blob db (client_of blob) max_size_mb)) c r)
      as [c' r'].
    simpl in Hrec.
    specialize (IH (scan_count + 1)%Z c' r' (examined ++ [blob_name blob])).
    simpl in IH. unfold py_len in *. rewrite length_app in IH. simpl in IH. lia.
  - lia.
Qed.

(** A listing with enough items is walked up to the cap, whatever the
    outcomes and whatever follows. *)
Lemma scan_blobs_reaches_cap (items : list blob_item) (tail : listing blob_item) :
  forall (scan_count : Z) (c : container_results) (r : account_results)
         (examined : list string),
    (scan_count <= scan_depth <= scan_count + Z.of_nat (length items))%Z ->
    w_scan_count (scan_blobs db max_size_mb scan_depth (yields items tail)
                             scan_count c r examined) = scan_depth.
Proof.
  induction items as [|blob items IH]; intros scan_count c r examined H; simpl in H.
  - assert (scan_count = scan_depth) by lia. subst scan_count.
    pose proof (scan_blobs_counts tail scan_depth c r examined) as Hc.
    simpl in *. lia.
  - simpl. destruct (scan_depth <=? scan_count)%Z eqn:Hcap; simpl.
    + apply Z.leb_le in Hcap. lia.
    + apply Z.leb_gt in Hcap.
      destruct (record_scan blob (fst (scan_blob db (client_of blob) max_size_mb)) c r)
        as [c' r'].
      apply IH. lia.
Qed.

(** The loop over the containers. *)
Lemma scan_containers_counts (containers : listing container_item) :
  forall (r : account_results) (produced : list container_results)
         (examined : list (string * list string)),
    let a := scan_containers db max_size_mb scan_depth containers r produced examined in
    exists new_produced new_examined,
      a_produced a = produced ++ new_produced
      /\ a_examined a = examined ++ new_examined
      /\ pii_found_count (a_results a)
         = (pii_found_count r + sum_Z (map blobs_with_pii new_produced))%Z
      /\ Forall (within_cap scan_depth) new_produced
      /\ Forall (fun e => (py_len (snd e) <= Z.max 0 scan_depth)%Z) new_examined.
Proof.
  induction containers as [|container more IH|e]; intros r produced examined; simpl.
  - exists [], []. rewrite !app_nil_r. simpl. repeat split; auto. lia.
  - pose proof (fun blobs =>
                  scan_blobs_counts blobs 0 (new_container_results container) r []) as Hw.
    destruct (list_blobs container) as [blobs | e].
    + specialize (Hw blobs). simpl in Hw.
      set (w := scan_blobs db max_size_mb scan_depth blobs 0
                           (new_container_results container) r []) in *.
      assert (Hcap : within_cap scan_depth (w_container w)) by (unfold within_cap; lia).
      assert (Hex : (py_len (w_examined w) <= Z.max 0 scan_depth)%Z)
        by (unfold py_len in *; simpl in Hw; lia).
      destruct (w_raised w) as [e|].
      * exists [w_container w], [(name_of container, w_examined w)]. simpl.
        repeat split; auto. lia.
      * match goal with
        | |- context [scan_containers _ _ _ more ?r2 ?p ?x] =>
            destruct (IH r2 p x) as (np & nx & Ep & Ex & Hpii & Hcaps & Hexs)
        end.
        exists (w_container w :: np), ((name_of container, w_examined w) :: nx).
        rewrite Ep, Ex, <- !app_assoc. simpl. repeat split; auto.
        rewrite Hpii.
        destruct (0 <? blobs_with_pii (w_container w))%Z; simpl; lia.
    + exists [new_container_results container], [(name_of container, [])]. simpl.
      repeat split; auto.
      * lia.
      * constructor; [|constructor]. unfold within_cap. simpl. lia.
      * constructor; [|constructor]. simpl. unfold py_len. simpl. lia.
  - exists [], []. rewrite !app_nil_r. simpl. repeat split; auto. lia.
Qed.

Lemma run_account_counts (service : blob_service) (account_name group now : string) :
  let a := run_account db service account_name group now max_size_mb scan_depth in
  pii_found_count (a_results a) = sum_Z (map blobs_with_pii (a_produced a))
  /\ Forall (within_cap scan_depth) (a_produced a)
  /\ Forall (fun e => (py_len (snd e) <= Z.max 0 scan_depth)%Z) (a_examined a).
Proof.
  unfold run_account. destruct (list_containers service) as [containers | e]; simpl.
  - destruct (scan_containers_counts containers
                (new_account_results account_name group now) [] [])
      as (np & nx & Ep & Ex & Hpii & Hcaps & Hexs).
    simpl in *. rewrite Ep, Ex, Hpii. auto.
  - repeat split; constructor.
Qed.

End WalkFacts.

(* ================================================================== *)
(** * Claims on the account walk *)

(** C5.  The [pii_found_count] of the dictionary [scan_storage_account]
    returns is the sum of [blobs_with_pii] over every [container_results]
    dictionary created in the run: those appended to [pii_findings], those
    left out because they hold no PII, and the one in progress when an
    exception ended the walk. *)
Theorem pii_found_count_is_sum :
  forall (db : unicode_data) (service : blob_service)
         (account_name group now : string) (max_size_mb scan_depth : Z),
    pii_found_count
      (scan_storage_account db service account_name group now max_size_mb scan_depth)
    = sum_Z (map blobs_with_pii
               (a_produced (run_account db service account_name group now
                                        max_size_mb scan_depth))).
Proof.
  intros. unfold scan_storage_account.
  apply (run_account_counts db max_size_mb scan_depth service account_name group now).
Qed.

(** C6, as amended.  Every [container_results] dictionary of a run has
    [0 <= blobs_with_pii <= blobs_scanned <= max(scan_depth, 0)]; so
    [blobs_scanned <= scan_depth] whenever [scan_depth] is not negative. *)
Theorem container_counters_within_cap :
  forall (db : unicode_data) (service : blob_service)
         (account_name group now : string) (max_size_mb scan_depth : Z),
    Forall (fun c => (0 <= blobs_with_pii c <= c_blobs_scanned c
                      /\ c_blobs_scanned c <= Z.max 0 scan_depth)%Z)
           (a_produced (run_account db service account_name group now
                                    max_size_mb scan_depth)).
Proof.
  intros.
  apply (run_account_counts db max_size_mb scan_depth service account_name group now).
Qed.

(** C6, as stated, fails for a negative cap: with [scan_depth = -1] the one
    container of the account gets a dictionary with [blobs_scanned = 0], and
    [0 <= -1] does not hold. *)
Lemma blobs_scanned_above_negative_cap :
  (forall db : unicode_data,
     map c_blobs_scanned
         (a_produced (run_account db one_blob_service "acct" "rg" "now" 10 (-1)))
     = [0%Z])
  /\ ~ (0 <= -1)%Z.
Proof. split; [intros db; reflexivity | lia]. Qed.

(** C4, as amended.  In the loop over the blobs of a container, started as
    [scan_storage_account] starts it: the number of blobs handed to
    [scan_blob] is at most [max(scan_depth, 0)], and it is the final
    [scan_count], so every blob handed over counts, whatever its outcome.  A
    listing that yields 150 blobs is walked with [scan_depth = 100] for
    exactly 100 blobs, whatever the outcomes and whatever the listing does
    after them.  In a whole run, no container has more than
    [max(scan_depth, 0)] blobs handed to [scan_blob]. *)
Theorem examined_within_scan_depth :
  forall (db : unicode_data) (max_size_mb scan_depth : Z),
    (forall (blobs : listing blob_item) (c : container_results) (r : account_results),
        (py_len (w_examined (scan_blobs db max_size_mb scan_depth blobs 0 c r []))
         <= Z.max 0 scan_depth)%Z
        /\ w_scan_count (scan_blobs db max_size_mb scan_depth blobs 0 c r [])
           = py_len (w_examined (scan_blobs db max_size_mb scan_depth blobs 0 c r [])))
    /\ (forall (items : list blob_item) (tail : listing blob_item)
               (c : container_results) (r : account_results),
           length items = 150%nat ->
           py_len (w_examined (scan_blobs db max_size_mb 100 (yields items tail) 0 c r []))
           = 100%Z)
    /\ (forall (service : blob_service) (account_name group now : string),
           Forall (fun e => (py_len (snd e) <= Z.max 0 scan_depth)%Z)
                  (a_examined (run_account db service account_name group now
                                           max_size_mb scan_depth))).
Proof.
  intros db max_size_mb scan_depth. split; [|split].
  - intros blobs c r.
    pose proof (scan_blobs_counts db max_size_mb scan_depth blobs 0 c r []) as H.
    simpl in H. unfold py_len in *. simpl in H. lia.
  - intros items tail c r Hlen.
    pose proof (scan_blobs_counts db max_size_mb 100 (yields items tail) 0 c r []) as H.
    pose proof (scan_blobs_reaches_cap db max_size_mb 100 items tail 0 c r []) as Hcap.
    simpl in H. unfold py_len in *. simpl in H. rewrite Hlen in Hcap. lia.
  - intros service account_name group now.
    apply (run_account_counts db max_size_mb scan_depth service account_name group now).
Qed.

(** C4, as stated, fails for a negative cap: with [scan_depth = -1] no blob
    of the container is handed to [scan_blob], and "at most -1" does not
    hold of none. *)
Lemma examined_above_negative_cap :
  (forall db : unicode_data,
     a_examined (run_account db one_blob_service "acct" "rg" "now" 10 (-1))
     = [("docs"%string, [])])
  /\ ~ (py_len (@nil string) <= -1)%Z.
Proof. split; [intros db; reflexivity | unfold py_len; simpl; lia]. Qed.

(** A container of 150 copies of one small text blob, walked with the
    default limits: 100 blobs are handed to [scan_blob] and counted as
    scanned, none has PII. *)
Example walk_of_150_blobs :
  forall db : unicode_data,
    let w := scan_blobs db 10 100 (yields (repeat plain_blob 150) Exhausted) 0
                        {| container_name := "docs"; c_blobs_scanned := 0;
                           blobs_with_pii := 0; c_findings := [] |}
                        (new_account_results "acct" "rg" "now") [] in
    (length (w_examined w), w_scan_count w, c_blobs_scanned (w_container w),
     blobs_with_pii (w_container w))
    = (100%nat, 100%Z, 100%Z, 0%Z).
Proof. intros db. vm_compute. reflexivity. Qed.

(* ================================================================== *)
(** * Further properties of the content scanner *)

(** For each pattern of the registry but Phone Number, every entry of the
    match list is a substring of the text. *)
Theorem match_entries_are_substrings :
  forall (db : unicode_data) (pattern_name : string) (pattern : regex) (text m : str),
    In (pattern_name, pattern) PII_PATTERNS ->
    pattern_name <> "Phone Number"%string ->
    In m (re_findall db pattern text) ->
    exists before after, text = before ++ m ++ after.
Proof.
  intros db pattern_name pattern text m Hreg Hphone Hin.
  assert (Hg : groups pattern = 0%nat).
  { unfold PII_PATTERNS in Hreg. simpl in Hreg.
    destruct Hreg as [E|[E|[E|[E|[E|[E|[E|[E|[E|[]]]]]]]]]];
      injection E as <- <-; try reflexivity.
    contradiction Hphone. reflexivity. }
  destruct (re_findall_sound db pattern text m Hg Hin) as [_ H]. exact H.
Qed.

Lemma match_entries_are_substrings_witness :
  exists before after,
    str_of "SSN: 123-45-6789" = before ++ str_of "123-45-6789" ++ after.
Proof.
  apply (match_entries_are_substrings ascii_only "SSN" re_ssn).
  - left. reflexivity.
  - discriminate.
  - vm_compute. left. reflexivity.
Defined.

(** On the text [Contact me at john.doe@example.com] the findings map has one
    entry, for Email, with count 1 and the sample [j******e@example.com]. *)
Theorem scan_email_scenario :
  forall db : unicode_data,
    scan_text_for_pii db (str_of "Contact me at john.doe@example.com")
    = Ok [("Email"%string, {| count := 1; samples := [str_of "j******e@example.com"] |})].
Proof. intros db. vm_compute. reflexivity. Qed.

(** A match of a pattern of the registry has at least six characters. *)
Lemma registry_matches_are_not_empty :
  Forall (fun p => (6 <= min_width (snd p))%nat) PII_PATTERNS.
Proof.
  unfold PII_PATTERNS. repeat apply Forall_cons; try apply Forall_nil; vm_compute; lia.
Qed.

(* ================================================================== *)
(** * The match list, in the order of the text *)

Lemma occur_in_order_later (ms : list str) (x : N) (text : str) :
  occur_in_order ms text -> occur_in_order ms (x :: text).
Proof.
  destruct ms as [|m ms]; simpl; [auto|].
  intros (before & after & -> & H). exists (x :: before), after. auto.
Qed.

Lemma occur_in_order_sizes (ms : list str) :
  forall text, occur_in_order ms text ->
               (length (concat ms) <= length text)%nat.
Proof.
  induction ms as [|m ms IH]; simpl; intros text H; [lia|].
  destruct H as (before & after & -> & H). apply IH in H.
  rewrite !length_app. lia.
Qed.

Section ScanOrder.

Variable db : unicode_data.

Lemma scan_in_order (r : regex) :
  groups r = 0%nat ->
  forall s skip pv, occur_in_order (scan db r skip pv s) (skipn skip s).
Proof.
  intros Hg. induction s as [|x s IH]; intros skip pv.
  - destruct skip; simpl; [|exact I].
    destruct (re_match db r pv []) as [c|]; simpl; [|exact I].
    unfold findall_item. rewrite Hg. rewrite firstn_nil.
    exists [], []. auto.
  - destruct skip as [|n]; [|simpl; apply IH].
    simpl. destruct (re_match db r pv (x :: s)) as [c|] eqn:Hm.
    + unfold findall_item. rewrite Hg.
      apply re_match_sound in Hm. destruct Hm as [_ E].
      destruct (pos c) as [|n] eqn:Hn.
      * simpl. exists [], (x :: s). split; [reflexivity|].
        apply occur_in_order_later. apply (IH 0%nat).
      * exists [], (skipn n s). split.
        -- simpl app. rewrite <- (firstn_skipn (S n) (x :: s)) at 1. reflexivity.
        -- simpl Nat.pred. apply IH.
    + apply occur_in_order_later. apply (IH 0%nat).
Qed.

End ScanOrder.

(** For each pattern of the registry but Phone Number, the entries of the
    match list stand in the text in the order of the list, from left to
    right and without overlap; so their lengths add up to at most the length
    of the text. *)
Theorem match_entries_in_text_order :
  forall (db : unicode_data) (pattern_name : string) (pattern : regex) (text : str),
    In (pattern_name, pattern) PII_PATTERNS ->
    pattern_name <> "Phone Number"%string ->
    occur_in_order (re_findall db pattern text) text
    /\ (length (concat (re_findall db pattern text)) <= length text)%nat.
Proof.
  intros db pattern_name pattern text Hreg Hphone.
  assert (Hg : groups pattern = 0%nat).
  { unfold PII_PATTERNS in Hreg. simpl in Hreg.
    destruct Hreg as [E|[E|[E|[E|[E|[E|[E|[E|[E|[]]]]]]]]]];
      injection E as <- <-; try reflexivity.
    contradiction Hphone. reflexivity. }
  assert (H : occur_in_order (re_findall db pattern text) text)
    by exact (scan_in_order db pattern Hg text 0 None).
  split; [exact H | apply occur_in_order_sizes; exact H].
Qed.

Lemma match_entries_in_text_order_witness :
  occur_in_order
    (re_findall ascii_only re_ip_address (str_of "from 10.0.0.1 to 10.0.0.2"))
    (str_of "from 10.0.0.1 to 10.0.0.2")
  /\ (length (concat (re_findall ascii_only re_ip_address
                                 (str_of "from 10.0.0.1 to 10.0.0.2")))
      <= length (str_of "from 10.0.0.1 to 10.0.0.2"))%nat.
Proof.
  apply (match_entries_in_text_order ascii_only "IP Address").
  - do 6 right. left. reflexivity.
  - discriminate.
Defined.

(* ================================================================== *)
(** * The findings map, entry by entry *)

Lemma dict_set_fresh {V : Type} (k : string) (v : V) (d : dict V) :
  ~ In k (map fst d) -> dict_set k v d = d ++ [(k, v)].
Proof.
  induction d as [|[k' v'] d IH]; simpl; intros H; [reflexivity|].
  destruct (String.eqb_spec k' k) as [-> | Hne].
  - exfalso. apply H. left. reflexivity.
  - rewrite IH; [reflexivity|]. intros Hin. apply H. right. exact Hin.
Qed.

Lemma redact_matches_length (pattern_name : string) (ms : list str) :
  (forall m acc, In m ms -> exists red, redact_match pattern_name m acc = Ok (acc ++ [red])) ->
  forall acc, exists out,
    redact_matches pattern_name ms acc = Ok out
    /\ length out = (length acc + length ms)%nat.
Proof.
  induction ms as [|m ms IH]; intros H acc; simpl.
  - exists acc. split; [reflexivity | lia].
  - destruct (H m acc (or_introl eq_refl)) as (red & ->). cbn [bind].
    destruct (IH (fun m' a Hin => H m' a (or_intror Hin)) (acc ++ [red]))
      as (out & -> & Hlen).
    exists out. split; [reflexivity|]. rewrite Hlen, length_app. simpl. lia.
Qed.

Section FindingsFacts.

Variable db : unicode_data.

(** On a match of its own pattern, every branch of the redaction appends
    exactly one sample. *)
Lemma registry_redacts_one (text : str) :
  Forall (fun p => forall m acc, In m (re_findall db (snd p) text) ->
                     exists red, redact_match (fst p) m acc = Ok (acc ++ [red]))
         PII_PATTERNS.
Proof.
  unfold PII_PATTERNS.
  repeat apply Forall_cons; try apply Forall_nil; simpl fst; simpl snd; intros m acc Hin.
  - eexists. apply redact_last_four; reflexivity.
  - eexists. apply redact_last_four; reflexivity.
  - destruct (email_masks db text m acc Hin) as (red & -> & _). eexists. reflexivity.
  - eexists. apply redact_last_four; reflexivity.
  - destruct (three_and_three_masks db re_passport "Passport Number" text m acc)
      as (red & -> & _); [registry_side db .. | eexists; reflexivity].
  - destruct (three_and_three_masks db re_driver_license "US Driver License" text m acc)
      as (red & -> & _); [registry_side db .. | eexists; reflexivity].
  - destruct (three_and_three_masks db re_ip_address "IP Address" text m acc)
      as (red & -> & _); [registry_side db .. | eexists; reflexivity].
  - destruct (three_and_three_masks db re_aws_access_key "AWS Access Key" text m acc)
      as (red & -> & _); [registry_side db .. | eexists; reflexivity].
  - destruct (three_and_three_masks db re_azure_connection_string
                "Azure Connection String" text m acc)
      as (red & -> & _); [registry_side db .. | eexists; reflexivity].
Qed.

Lemma finding_of_more (text : str) (p : string * regex) (ps : dict regex)
    (e : string * finding) :
  finding_of db text ps e -> finding_of db text (p :: ps) e.
Proof.
  intros (r & Hin & H). exists r. split; [right; exact Hin | exact H].
Qed.

(** The loop over the patterns appends one entry per pattern that has a
    match, in the order of the patterns. *)
Lemma scan_patterns_entries (text : str) (ps : dict regex) :
  NoDup (map fst ps) ->
  Forall (fun p => forall m acc, In m (re_findall db (snd p) text) ->
                     exists red, redact_match (fst p) m acc = Ok (acc ++ [red])) ps ->
  forall f0,
    (forall k, In k (map fst ps) -> ~ In k (map fst f0)) ->
    exists g,
      scan_patterns db text ps f0 = Ok (f0 ++ g)
      /\ map fst g = map fst (filter (has_match db text) ps)
      /\ Forall (finding_of db text ps) g.
Proof.
  induction ps as [|[n r] ps IH]; intros Hnd Hred f0 Hfresh.
  - exists []. simpl. rewrite app_nil_r. auto.
  - simpl map in Hnd. apply NoDup_cons_iff in Hnd. destruct Hnd as [Hn Hnd].
    apply Forall_cons_iff in Hred. destruct Hred as [Hr Hred]. simpl in Hr.
    simpl scan_patterns. unfold scan_pattern, has_match. simpl filter. simpl snd.
    destruct (re_findall db r text) as [|m ms] eqn:Hms.
    + cbn [bind].
      destruct (IH Hnd Hred f0) as (g & E & Hk & Hall).
      { intros k Hk. apply Hfresh. right. exact Hk. }
      exists g. split; [exact E|]. split; [exact Hk|].
      eapply Forall_impl; [|exact Hall]. intros e. apply finding_of_more.
    + destruct (redact_matches_length n (m :: ms) Hr []) as (out & -> & Hlen).
      cbn [bind]. rewrite dict_set_fresh by (apply Hfresh; left; reflexivity).
      destruct (IH Hnd Hred (f0 ++ [(n, {| count := py_len (m :: ms);
                                          samples := py_slice_to out 3 |})]))
        as (g & E & Hk & Hall).
      { intros k Hk Hin. rewrite map_app in Hin. apply in_app_or in Hin.
        destruct Hin as [Hin | [<- | []]].
        - exact (Hfresh k (or_intror Hk) Hin).
        - exact (Hn Hk). }
      eexists (_ :: g). rewrite <- app_assoc in E. split; [exact E|].
      split; [simpl; f_equal; exact Hk|]. constructor.
      * exists r. cbn [fst snd count samples]. split; [left; reflexivity|]. rewrite Hms.
        split; [reflexivity|]. split; [unfold py_len; simpl length; lia|].
        unfold py_slice_to. rewrite length_firstn, Hlen. reflexivity.
      * eapply Forall_impl; [|exact Hall]. intros e. apply finding_of_more.
Qed.

End FindingsFacts.

(** For every text, [scan_text_for_pii] returns a findings map whose keys are
    the names of the patterns that have a match in the text, each once and in
    the order of the registry; the count of an entry is the number of matches
    of its pattern, at least one, and its samples are as many as the matches,
    up to three. *)
Theorem findings_of_the_matching_patterns :
  forall (db : unicode_data) (text : str),
    exists f,
      scan_text_for_pii db text = Ok f
      /\ dict_keys f = map fst (filter (has_match db text) PII_PATTERNS)
      /\ Forall (finding_of db text PII_PATTERNS) f.
Proof.
  intros db text.
  destruct (scan_patterns_entries db text PII_PATTERNS) with (f0 := @nil (string * finding))
    as (g & E & Hk & Hall).
  - unfold PII_PATTERNS. simpl.
    repeat (apply NoDup_cons; [simpl; intuition discriminate|]). apply NoDup_nil.
  - apply registry_redacts_one.
  - intros k _ [].
  - exists g. split; [exact E|]. split; assumption.
Qed.

(* ================================================================== *)
(** * The object scanner, path by path *)

(** The six ways through [scan_blob]; the content scanner never raises, so
    there is no seventh. *)
Lemma scan_blob_cases (db : unicode_data) (client : blob_client) (max_size_mb : Z) :
  (exists e, get_blob_properties client = Raise e
             /\ scan_blob db client max_size_mb = (error_outcome e, [GetBlobProperties]))
  \/ (exists p, get_blob_properties client = Ok p
                /\ (max_size_mb * 1024 * 1024 < size p)%Z
                /\ scan_blob db client max_size_mb
                   = (too_large_outcome p, [GetBlobProperties]))
  \/ (exists p e, get_blob_properties client = Ok p
                  /\ (size p <= max_size_mb * 1024 * 1024)%Z
                  /\ download_blob client = Raise e
                  /\ scan_blob db client max_size_mb
                     = (error_outcome e, [GetBlobProperties; DownloadBlob]))
  \/ (exists p s e, get_blob_properties client = Ok p
                    /\ (size p <= max_size_mb * 1024 * 1024)%Z
                    /\ download_blob client = Ok s /\ readall s = Raise e
                    /\ scan_blob db client max_size_mb
                       = (error_outcome e, [GetBlobProperties; DownloadBlob; ReadAll]))
  \/ (exists p s content, get_blob_properties client = Ok p
                          /\ (size p <= max_size_mb * 1024 * 1024)%Z
                          /\ download_blob client = Ok s /\ readall s = Ok content
                          /\ utf8_decode content = None
                          /\ scan_blob db client max_size_mb
                             = (not_text_outcome p,
                                [GetBlobProperties; DownloadBlob; ReadAll]))
  \/ (exists p s content text f,
         get_blob_properties client = Ok p
         /\ (size p <= max_size_mb * 1024 * 1024)%Z
         /\ download_blob client = Ok s /\ readall s = Ok content
         /\ utf8_decode content = Some text
         /\ scan_text_for_pii db text = Ok f
         /\ scan_blob db client max_size_mb
            = (scanned_outcome p f,
               [GetBlobProperties; DownloadBlob; ReadAll; ScanText text])).
Proof.
  unfold scan_blob.
  destruct (get_blob_properties client) as [p | e];
    [|left; exists e; split; reflexivity].
  right. destruct (max_size_mb * 1024 * 1024 <? size p)%Z eqn:Hsize.
  { apply Z.ltb_lt in Hsize. left. exists p. repeat split; (assumption || reflexivity). }
  apply Z.ltb_ge in Hsize. right.
  destruct (download_blob client) as [s | e];
    [|left; exists p, e; repeat split; (assumption || reflexivity)].
  right. destruct (readall s) as [content | e] eqn:Hread;
    [|left; exists p, s, e; repeat split; (assumption || reflexivity)].
  right. destruct (utf8_decode content) as [text|] eqn:Hdec;
    [|left; exists p, s, content; repeat split; (assumption || reflexivity)].
  right. destruct (scan_text_for_pii_ok db text) as (f & Hf). rewrite Hf.
  exists p, s, content, text, f. repeat split; (assumption || reflexivity).
Qed.

(** [scan_blob] asks for the download exactly when the properties are
    delivered and report a size of at most [max_size_mb * 1024 * 1024] bytes:
    a blob above the limit or without properties is never downloaded, a blob
    of exactly the limit is. *)
Theorem scan_blob_downloads_within_limit :
  forall (db : unicode_data) (client : blob_client) (max_size_mb : Z),
    In DownloadBlob (snd (scan_blob db client max_size_mb))
    <-> exists p, get_blob_properties client = Ok p
                  /\ (size p <= max_size_mb * 1024 * 1024)%Z.
Proof.
  intros db client max_size_mb.
  destruct (scan_blob_cases db client max_size_mb)
    as [(e & Hp & ->) | [(p & Hp & Hs & ->) | [(p & e & Hp & Hs & _ & ->)
       | [(p & s & e & Hp & Hs & _ & _ & ->) | [(p & s & c & Hp & Hs & _ & _ & _ & ->)
       | (p & s & c & t & f & Hp & Hs & _ & _ & _ & _ & ->)]]]]]; simpl; split.
  - intros [H | []]. discriminate.
  - intros (p & Hp' & _). rewrite Hp in Hp'. discriminate.
  - intros [H | []]. discriminate.
  - intros (p' & Hp' & Hs'). rewrite Hp in Hp'. injection Hp' as <-. lia.
  - intros _. eauto.
  - auto.
  - intros _. eauto.
  - auto.
  - intros _. eauto.
  - auto.
  - intros _. eauto.
  - auto.
Qed.

(** The content scanner is run on a text exactly when the blob is within the
    limit, its download and read succeed, and the bytes read are the UTF-8
    form of that text. *)
Theorem scan_blob_scans_the_decoded_text :
  forall (db : unicode_data) (client : blob_client) (max_size_mb : Z) (text : str),
    In (ScanText text) (snd (scan_blob db client max_size_mb))
    <-> exists p s content,
          get_blob_properties client = Ok p
          /\ (size p <= max_size_mb * 1024 * 1024)%Z
          /\ download_blob client = Ok s /\ readall s = Ok content
          /\ utf8_decode content = Some text.
Proof.
  intros db client max_size_mb text.
  destruct (scan_blob_cases db client max_size_mb)
    as [(e & Hp & ->) | [(p & Hp & Hs & ->) | [(p & e & Hp & Hs & Hd & ->)
       | [(p & s & e & Hp & Hs & Hd & Hr & ->) | [(p & s & c & Hp & Hs & Hd & Hr & Hu & ->)
       | (p & s & c & t & f & Hp & Hs & Hd & Hr & Hu & _ & ->)]]]]]; simpl; split.
  - intros [H | []]. discriminate.
  - intros (p & s & c & Hp' & _). rewrite Hp in Hp'. discriminate.
  - intros [H | []]. discriminate.
  - intros (p' & s & c & Hp' & Hs' & _). rewrite Hp in Hp'. injection Hp' as <-. lia.
  - intros [H | [H | []]]; discriminate.
  - intros (p' & s & c & _ & _ & Hd' & _). rewrite Hd in Hd'. discriminate.
  - intros [H | [H | [H | []]]]; discriminate.
  - intros (p' & s' & c & _ & _ & Hd' & Hr' & _). rewrite Hd in Hd'.
    injection Hd' as <-. rewrite Hr in Hr'. discriminate.
  - intros [H | [H | [H | []]]]; discriminate.
  - intros (p' & s' & c' & _ & _ & Hd' & Hr' & Hu'). rewrite Hd in Hd'.
    injection Hd' as <-. rewrite Hr in Hr'. injection Hr' as <-.
    rewrite Hu in Hu'. discriminate.
  - intros [H | [H | [H | [H | []]]]]; try discriminate.
    injection H as <-. exists p, s, c. auto.
  - intros (p' & s' & c' & _ & _ & Hd' & Hr' & Hu'). rewrite Hd in Hd'.
    injection Hd' as <-. rewrite Hr in Hr'. injection Hr' as <-.
    rewrite Hu in Hu'. injection Hu' as <-. auto.
Qed.

(** A blob within the limit whose bytes are UTF-8 text is always reported as
    scanned, with the findings map the content scanner returns for the
    decoded text: no text makes the scan of a blob end in an error. *)
Theorem scan_blob_of_text :
  forall (db : unicode_data) (client : blob_client) (max_size_mb : Z)
         (p : blob_properties) (s : stream_downloader) (content : list byte) (text : str),
    get_blob_properties client = Ok p ->
    (size p <= max_size_mb * 1024 * 1024)%Z ->
    download_blob client = Ok s ->
    readall s = Ok content ->
    utf8_decode content = Some text ->
    exists f,
      scan_text_for_pii db text = Ok f
      /\ fst (scan_blob db client max_size_mb)
         = {| scanned := true; reason := None; size_mb := Some (megabytes (size p));
              findings := Some f; has_pii := Some (0 <? py_len f)%Z |}.
Proof.
  intros db client max_size_mb p s content text Hp Hs Hd Hr Hu.
  destruct (scan_text_for_pii_ok db text) as (f & Hf). exists f. split; [exact Hf|].
  unfold scan_blob. rewrite Hp.
  replace (max_size_mb * 1024 * 1024 <? size p)%Z with false
    by (symmetry; apply Z.ltb_ge; exact Hs).
  rewrite Hd, Hr, Hu, Hf. reflexivity.
Qed.

(** A blob of exactly 10 MB against the limit of 10 MB. *)
Lemma scan_blob_of_text_witness :
  exists f,
    scan_text_for_pii ascii_only (str_of "hi") = Ok f
    /\ fst (scan_blob ascii_only blob_at_the_limit 10)
       = {| scanned := true; reason := None; size_mb := Some (megabytes 10485760);
            findings := Some f; has_pii := Some (0 <? py_len f)%Z |}.
Proof.
  apply (scan_blob_of_text ascii_only blob_at_the_limit 10 {| size := 10485760 |}
           {| readall := Ok [x68; x69] |} [x68; x69] (str_of "hi"));
    (reflexivity || (simpl; lia)).
Defined.

(** When [scan_blob] reports a blob as not scanned, the reason is
    [File too large] or [Not a text file], each with the size, or it is
    [Error: ] followed by the text of an exception that the properties call,
    the download or the read raised, without a size. *)
Theorem scan_blob_skip_reasons :
  forall (db : unicode_data) (client : blob_client) (max_size_mb : Z),
    scanned (fst (scan_blob db client max_size_mb)) = false ->
    (exists p, get_blob_properties client = Ok p
               /\ (fst (scan_blob db client max_size_mb) = too_large_outcome p
                   \/ fst (scan_blob db client max_size_mb) = not_text_outcome p))
    \/ (exists e,
           (get_blob_properties client = Raise e
            \/ download_blob client = Raise e
            \/ exists s, download_blob client = Ok s /\ readall s = Raise e)
           /\ fst (scan_blob db client max_size_mb)
              = {| scanned := false; reason := Some ("Error: " ++ exn_text e)%string;
                   size_mb := None; findings := None; has_pii := None |}).
Proof.
  intros db client max_size_mb.
  destruct (scan_blob_cases db client max_size_mb)
    as [(e & Hp & ->) | [(p & Hp & Hs & ->) | [(p & e & Hp & Hs & Hd & ->)
       | [(p & s & e & Hp & Hs & Hd & Hr & ->) | [(p & s & c & Hp & Hs & Hd & Hr & Hu & ->)
       | (p & s & c & t & f & Hp & Hs & Hd & Hr & Hu & _ & ->)]]]]]; simpl; intros H.
  - right. exists e. auto.
  - left. exists p. auto.
  - right. exists e. auto.
  - right. exists e. split; [|reflexivity]. right. right. exists s. auto.
  - left. exists p. auto.
  - discriminate.
Qed.

(** A blob whose properties call raises. *)
Lemma scan_blob_skip_reasons_witness :
  (exists p, get_blob_properties forbidden_blob = Ok p
             /\ (fst (scan_blob ascii_only forbidden_blob 10) = too_large_outcome p
                 \/ fst (scan_blob ascii_only forbidden_blob 10) = not_text_outcome p))
  \/ (exists e,
         (get_blob_properties forbidden_blob = Raise e
          \/ download_blob forbidden_blob = Raise e
          \/ exists s, download_blob forbidden_blob = Ok s /\ readall s = Raise e)
         /\ fst (scan_blob ascii_only forbidden_blob 10)
            = {| scanned := false; reason := Some ("Error: " ++ exn_text e)%string;
                 size_mb := None; findings := None; has_pii := None |}).
Proof. apply (scan_blob_skip_reasons ascii_only forbidden_blob 10). reflexivity. Defined.

(* ================================================================== *)
(** * The account walk, container by container *)

(** Splits a conjunction of the goal, and no definition behind it. *)
Ltac conjs := repeat match goal with |- _ /\ _ => split end.

Section WalkStructure.

Variable db : unicode_data.
Variables max_size_mb scan_depth : Z.

(** A blob reported with PII has a findings map that is not empty. *)
Lemma has_pii_findings (client : blob_client) :
  get_has_pii (fst (scan_blob db client max_size_mb)) = true ->
  get_findings (fst (scan_blob db client max_size_mb)) <> [].
Proof.
  destruct (scan_blob_cases db client max_size_mb)
    as [(e & _ & ->) | [(p & _ & _ & ->) | [(p & e & _ & _ & _ & ->)
       | [(p & s & e & _ & _ & _ & _ & ->) | [(p & s & c & _ & _ & _ & _ & _ & ->)
       | (p & s & c & t & f & _ & _ & _ & _ & _ & _ & ->)]]]]];
    unfold get_has_pii, get_findings; simpl; try discriminate.
  destruct f; [discriminate | intros _; discriminate].
Qed.

(** What one [scan_blob] leaves alone, and what it adds. *)
Lemma record_scan_frame (blob : blob_item) (o : scan_outcome)
    (c : container_results) (r : account_results) :
  let c' := fst (record_scan blob o c r) in
  let r' := snd (record_scan blob o c r) in
  storage_account r' = storage_account r /\ resource_group r' = resource_group r
  /\ scan_time r' = scan_time r /\ containers_scanned r' = containers_scanned r
  /\ pii_findings r' = pii_findings r /\ container_name c' = container_name c
  /\ (blobs_scanned r' - blobs_scanned r = c_blobs_scanned c' - c_blobs_scanned c)%Z.
Proof.
  unfold record_scan. destruct (scanned o); [destruct (get_has_pii o)|]; simpl;
    conjs; first [reflexivity | lia].
Qed.

Lemma record_scan_findings (blob : blob_item) (c : container_results)
    (r : account_results) :
  findings_consistent c ->
  findings_consistent
    (fst (record_scan blob (fst (scan_blob db (client_of blob) max_size_mb)) c r)).
Proof.
  intros [Hn Hall]. unfold record_scan.
  destruct (scanned (fst (scan_blob db (client_of blob) max_size_mb))); [|split; assumption].
  destruct (get_has_pii (fst (scan_blob db (client_of blob) max_size_mb))) eqn:Hpii;
    [|split; assumption].
  split; simpl.
  - unfold py_len in *. rewrite length_app. simpl. lia.
  - apply Forall_app. split; [exact Hall|]. constructor; [|constructor]. simpl.
    split; [apply has_pii_findings; exact Hpii | reflexivity].
Qed.

Lemma scan_blobs_frame (blobs : listing blob_item) :
  forall (scan_count : Z) (c : container_results) (r : account_results)
         (examined : list string),
    let w := scan_blobs db max_size_mb scan_depth blobs scan_count c r examined in
    storage_account (w_results w) = storage_account r
    /\ resource_group (w_results w) = resource_group r
    /\ scan_time (w_results w) = scan_time r
    /\ containers_scanned (w_results w) = containers_scanned r
    /\ pii_findings (w_results w) = pii_findings r
    /\ container_name (w_container w) = container_name c
    /\ (blobs_scanned (w_results w) - blobs_scanned r
        = c_blobs_scanned (w_container w) - c_blobs_scanned c)%Z
    /\ (findings_consistent c -> findings_consistent (w_container w))
    /\ w_examined w
       = examined ++ map blob_name
                         (firstn (Z.to_nat (scan_depth - scan_count)) (listing_items blobs)).
Proof.
  induction blobs as [|blob more IH|e]; intros scan_count c r examined; simpl.
  - rewrite firstn_nil, app_nil_r. conjs; auto. lia.
  - destruct (scan_depth <=? scan_count)%Z eqn:Hcap; simpl.
    + apply Z.leb_le in Hcap. replace (Z.to_nat (scan_depth - scan_count)) with 0%nat by lia.
      simpl. rewrite app_nil_r. conjs; auto. lia.
    + apply Z.leb_gt in Hcap.
      pose proof (record_scan_frame blob
                    (fst (scan_blob db (client_of blob) max_size_mb)) c r) as Hf.
      pose proof (record_scan_findings blob c r) as Hfc.
      destruct (record_scan blob (fst (scan_blob db (client_of blob) max_size_mb)) c r)
        as [c' r'].
      simpl in Hf, Hfc.
      destruct Hf as (F1 & F2 & F3 & F4 & F5 & F6 & F7).
      specialize (IH (scan_count + 1)%Z c' r' (examined ++ [blob_name blob])).
      simpl in IH. destruct IH as (I1 & I2 & I3 & I4 & I5 & I6 & I7 & I8 & I9).
      replace (Z.to_nat (scan_depth - scan_count))
        with (S (Z.to_nat (scan_depth - (scan_count + 1)))) by lia.
      simpl. rewrite I9, <- app_assoc. simpl.
      conjs; try congruence; auto. lia.
  - rewrite firstn_nil, app_nil_r. conjs; auto. lia.
Qed.

(** The loop over the containers: the dictionaries it creates, in order, are
    those of the containers walked to the end and, after them, at most one
    left in progress by an exception. *)
Lemma scan_containers_structure (containers : listing container_item) :
  forall (r : account_results) (produced : list container_results)
         (examined : list (string * list string)),
    let a := scan_containers db max_size_mb scan_depth containers r produced examined in
    exists completed partial,
      a_produced a = produced ++ completed ++ partial
      /\ (length partial <= 1)%nat
      /\ (a_raised a = None -> partial = [])
      /\ containers_scanned (a_results a) = (containers_scanned r + py_len completed)%Z
      /\ pii_findings (a_results a) = pii_findings r ++ filter with_pii completed
      /\ blobs_scanned (a_results a)
         = (blobs_scanned r + sum_Z (map c_blobs_scanned (completed ++ partial)))%Z
      /\ storage_account (a_results a) = storage_account r
      /\ resource_group (a_results a) = resource_group r
      /\ scan_time (a_results a) = scan_time r
      /\ Forall findings_consistent (completed ++ partial).
Proof.
  induction containers as [|container more IH|e]; intros r produced examined; simpl.
  - exists [], []. simpl. rewrite !app_nil_r. unfold py_len. simpl.
    conjs; auto; lia.
  - pose proof (fun blobs =>
                  scan_blobs_frame blobs 0 (new_container_results container) r []) as Hw.
    destruct (list_blobs container) as [blobs | e].
    + specialize (Hw blobs). simpl in Hw.
      set (w := scan_blobs db max_size_mb scan_depth blobs 0
                           (new_container_results container) r []) in *.
      destruct Hw as (F1 & F2 & F3 & F4 & F5 & F6 & F7 & F8 & F9).
      assert (Hfc : findings_consistent (w_container w)).
      { apply F8. split; [reflexivity | constructor]. }
      destruct (w_raised w) as [e|].
      * exists [], [w_container w]. simpl. rewrite app_nil_r. unfold py_len. simpl.
        conjs; auto; try lia. discriminate.
      * match goal with
        | |- context [scan_containers _ _ _ more ?r2 ?p ?x] =>
            destruct (IH r2 p x)
              as (cs & pt & Ep & Hl & Hn & Hc & Hp & Hb & H1 & H2 & H3 & Hall);
            assert (Hr2 : containers_scanned r2 = (containers_scanned r + 1)%Z
                          /\ pii_findings r2
                             = pii_findings r ++ filter with_pii [w_container w]
                          /\ blobs_scanned r2 = blobs_scanned (w_results w)
                          /\ storage_account r2 = storage_account r
                          /\ resource_group r2 = resource_group r
                          /\ scan_time r2 = scan_time r)
        end.
        { unfold with_pii. simpl filter.
          destruct (0 <? blobs_with_pii (w_container w))%Z; simpl;
            rewrite ?app_nil_r; conjs; congruence. }
        destruct Hr2 as (R1 & R2 & R3 & R4 & R5 & R6).
        exists (w_container w :: cs), pt.
        rewrite Ep, Hc, Hp, Hb, H1, H2, H3, R1, R2, R3, R4, R5, R6.
        rewrite <- !app_assoc. unfold py_len. simpl length. simpl map. simpl sum_Z.
        simpl filter. simpl app.
        conjs; auto; try lia.
        destruct (with_pii (w_container w)); reflexivity.
    + exists [], [new_container_results container]. simpl. rewrite app_nil_r.
      unfold py_len. simpl.
      conjs; auto; try lia; try discriminate.
      constructor; [|constructor]. split; [reflexivity | constructor].
  - exists [], []. simpl. rewrite !app_nil_r. unfold py_len. simpl.
    conjs; auto; lia.
Qed.

Lemma run_account_structure (service : blob_service) (account_name group now : string) :
  let a := run_account db service account_name group now max_size_mb scan_depth in
  exists completed partial,
    a_produced a = completed ++ partial
    /\ (length partial <= 1)%nat
    /\ (a_raised a = None -> partial = [])
    /\ containers_scanned (a_results a) = py_len completed
    /\ pii_findings (a_results a) = filter with_pii completed
    /\ blobs_scanned (a_results a) = sum_Z (map c_blobs_scanned (a_produced a))
    /\ storage_account (a_results a) = account_name
    /\ resource_group (a_results a) = group
    /\ scan_time (a_results a) = now
    /\ Forall findings_consistent (a_produced a).
Proof.
  unfold run_account. destruct (list_containers service) as [containers | e]; simpl.
  - destruct (scan_containers_structure containers
                (new_account_results account_name group now) [] [])
      as (cs & pt & Ep & Hl & Hn & Hc & Hp & Hb & H1 & H2 & H3 & Hall).
    simpl in *. exists cs, pt. rewrite Ep. conjs; auto.
  - exists [], []. simpl. conjs; auto.
Qed.

(** The exception that a listing of containers raises after some items
    changes nothing of what the walk has recorded. *)
Lemma scan_containers_broken (items : list container_item) (e : exn) :
  forall (r : account_results) (produced : list container_results)
         (examined : list (string * list string)),
    a_results (scan_containers db max_size_mb scan_depth (yields items (Broken e))
                               r produced examined)
    = a_results (scan_containers db max_size_mb scan_depth (yields items Exhausted)
                                 r produced examined).
Proof.
  induction items as [|container items IH]; intros r produced examined; simpl.
  - reflexivity.
  - destruct (list_blobs container) as [blobs | e']; [|reflexivity].
    destruct (w_raised (scan_blobs db max_size_mb scan_depth blobs 0
                                   (new_container_results container) r []));
      [reflexivity | apply IH].
Qed.

End WalkStructure.

(* ================================================================== *)
(** * Further properties of the account walk *)

Lemma sum_Z_zero (l : list Z) : Forall (fun z => z = 0%Z) l -> sum_Z l = 0%Z.
Proof. induction 1 as [|z l Hz _ IH]; simpl; lia. Qed.


(** The [blobs_scanned] of the dictionary [scan_storage_account] returns is
    the sum of [blobs_scanned] over every [container_results] dictionary of
    the run, one left unfinished by an exception included. *)
Theorem blobs_scanned_is_sum :
  forall (db : unicode_data) (service : blob_service)
         (account_name group now : string) (max_size_mb scan_depth : Z),
    blobs_scanned
      (scan_storage_account db service account_name group now max_size_mb scan_depth)
    = sum_Z (map c_blobs_scanned
               (a_produced (run_account db service account_name group now
                                        max_size_mb scan_depth))).
Proof.
  intros. unfold scan_storage_account.
  destruct (run_account_structure db max_size_mb scan_depth service account_name group now)
    as (cs & pt & Ep & Hl & Hn & Hc & Hp & Hb & _). exact Hb.
Qed.

(** In every [container_results] dictionary of a run, [blobs_with_pii] is the
    number of entries of [findings], and every entry has a findings map that
    is not empty and lists the keys of that map as its [pii_types]. *)
Theorem container_findings_are_consistent :
  forall (db : unicode_data) (service : blob_service)
         (account_name group now : string) (max_size_mb scan_depth : Z),
    Forall (fun c =>
              blobs_with_pii c = py_len (c_findings c)
              /\ Forall (fun f => details f <> [] /\ pii_types f = dict_keys (details f))
                        (c_findings c))
           (a_produced (run_account db service account_name group now
                                    max_size_mb scan_depth)).
Proof.
  intros.
  destruct (run_account_structure db max_size_mb scan_depth service account_name group now)
    as (cs & pt & _ & _ & _ & _ & _ & _ & _ & _ & _ & Hall). exact Hall.
Qed.

(** The blobs of a container handed to [scan_blob] are the first
    [scan_depth] blobs the listing yields (all of them when it yields fewer,
    none when [scan_depth] is not positive), in the order of the listing. *)
Theorem examined_blobs_are_the_first_listed :
  forall (db : unicode_data) (max_size_mb scan_depth : Z) (blobs : listing blob_item)
         (c : container_results) (r : account_results),
    w_examined (scan_blobs db max_size_mb scan_depth blobs 0 c r [])
    = map blob_name (firstn (Z.to_nat scan_depth) (listing_items blobs)).
Proof.
  intros.
  destruct (scan_blobs_frame db max_size_mb scan_depth blobs 0 c r [])
    as (_ & _ & _ & _ & _ & _ & _ & _ & H).
  rewrite H. simpl. rewrite Z.sub_0_r. reflexivity.
Qed.

(** A listing of containers that raises after some items gives the same
    dictionary as one that ends after these items; a [list_containers] call
    that raises gives the dictionary as first built, with all counters at 0. *)
Theorem container_listing_failure_keeps_results :
  forall (db : unicode_data) (items : list container_item) (e : exn)
         (account_name group now : string) (max_size_mb scan_depth : Z),
    scan_storage_account db {| list_containers := Ok (yields items (Broken e)) |}
                         account_name group now max_size_mb scan_depth
    = scan_storage_account db {| list_containers := Ok (yields items Exhausted) |}
                           account_name group now max_size_mb scan_depth
    /\ scan_storage_account db {| list_containers := Raise e |}
                            account_name group now max_size_mb scan_depth
       = {| storage_account := account_name; resource_group := group; scan_time := now;
            containers_scanned := 0; blobs_scanned := 0; pii_found_count := 0;
            pii_findings := [] |}.
Proof.
  intros. split; [|reflexivity].
  unfold scan_storage_account, run_account. simpl. apply scan_containers_broken.
Qed.

(** With a [scan_depth] that is not positive no blob is handed to
    [scan_blob]: the dictionary returned has [blobs_scanned = 0],
    [pii_found_count = 0] and no [pii_findings], while the containers are
    still counted as scanned. *)
Theorem nothing_scanned_without_depth :
  forall (db : unicode_data) (service : blob_service)
         (account_name group now : string) (max_size_mb scan_depth : Z),
    (scan_depth <= 0)%Z ->
    blobs_scanned
      (scan_storage_account db service account_name group now max_size_mb scan_depth) = 0%Z
    /\ pii_found_count
         (scan_storage_account db service account_name group now max_size_mb scan_depth)
       = 0%Z
    /\ pii_findings
         (scan_storage_account db service account_name group now max_size_mb scan_depth)
       = []
    /\ Forall (fun e => snd e = [])
              (a_examined (run_account db service account_name group now
                                       max_size_mb scan_depth)).
Proof.
  intros db service account_name group now max_size_mb scan_depth Hd.
  unfold scan_storage_account.
  destruct (run_account_structure db max_size_mb scan_depth service account_name group now)
    as (cs & pt & Ep & _ & _ & _ & Hp & Hb & _).
  destruct (run_account_counts db max_size_mb scan_depth service account_name group now)
    as (Hpii & Hcap & Hex).
  rewrite Hb, Hpii, Hp.
  assert (Hzero : Forall (fun c => c_blobs_scanned c = 0%Z /\ blobs_with_pii c = 0%Z)
                         (a_produced (run_account db service account_name group now
                                                  max_size_mb scan_depth))).
  { eapply Forall_impl; [|exact Hcap]. intros c [H1 H2]. lia. }
  conjs.
  - apply sum_Z_zero. rewrite Forall_map. eapply Forall_impl; [|exact Hzero].
    intros c [H _]. exact H.
  - apply sum_Z_zero. rewrite Forall_map. eapply Forall_impl; [|exact Hzero].
    intros c [_ H]. exact H.
  - rewrite Ep in Hzero. apply Forall_app in Hzero. destruct Hzero as [Hz _].
    clear - Hz. induction Hz as [|c l [_ Hc] _ IH]; [reflexivity|].
    simpl. unfold with_pii. rewrite Hc. simpl. exact IH.
  - eapply Forall_impl; [|exact Hex]. intros [n l] H. simpl in *.
    destruct l; [reflexivity|]. unfold py_len in H. simpl in H. lia.
Qed.

(** One container with one blob, walked with a scan depth of zero. *)
Lemma nothing_scanned_without_depth_witness :
  blobs_scanned (scan_storage_account ascii_only one_blob_service "acct" "rg" "now" 10 0)
  = 0%Z
  /\ pii_found_count
       (scan_storage_account ascii_only one_blob_service "acct" "rg" "now" 10 0) = 0%Z
  /\ pii_findings
       (scan_storage_account ascii_only one_blob_service "acct" "rg" "now" 10 0) = []
  /\ Forall (fun e => snd e = []) (a_examined walk_with_depth_zero).
Proof.
  apply (nothing_scanned_without_depth ascii_only one_blob_service "acct" "rg" "now" 10 0).
  lia.
Defined.

(* ================================================================== *)
(** * The driver never gets to a result of a scan *)

(** The prints after a call of [scan_storage_account] raise: what the call
    returned is a coroutine. *)
Lemma report_of_call_raises (account_name account_key group : string) (m d : Z) :
  report_account (call_scan_storage_account account_name account_key group m d)
  = Raise not_subscriptable.
Proof. reflexivity. Qed.






(** When the first resource group lists a storage account whose keys are
    delivered, [main] raises [Error in PII scan: 'coroutine' object is not
    subscriptable]: it reads a counter of what the call of
    [scan_storage_account] returned, which is a coroutine that never ran. *)
Theorem main_fails_at_the_first_account :
  forall (env : automation) (api : storage_accounts_api) (rg : string)
         (more_names : list string) (account : storage_account_item)
         (more : listing storage_account_item) (key : string) (more_keys : list string)
         (sub : string) (max_scan_size_mb scan_depth : Z),
    import_automationassets env = Ok tt ->
    runas_credential env = Ok tt ->
    subscription_id env = Ok sub ->
    management_clients env = Ok api ->
    list_by_resource_group api rg = Ok (Yield account more) ->
    list_keys api rg (account_name_of account) = Ok (key :: more_keys) ->
    main env (Some (rg :: more_names)) max_scan_size_mb scan_depth
    = Raise {| exn_kind := OtherException;
               exn_text := "Error in PII scan: 'coroutine' object is not subscriptable" |}.
Proof.
  intros env api rg more_names account more key more_keys sub m d Hi Hc Hs Ha Hl Hk.
  unfold main. cbn [bind]. rewrite Hi. cbn [bind].
  unfold main_body. rewrite Hc, Hs, Ha. cbn [bind].
  simpl scan_groups. rewrite Hl. cbn [bind]. simpl scan_accounts. rewrite Hk.
  reflexivity.
Qed.

(** A run over one resource group with one storage account. *)
Lemma main_fails_at_the_first_account_witness :
  main one_account_env (Some ["rg"%string]) 10 100
  = Raise {| exn_kind := OtherException;
             exn_text := "Error in PII scan: 'coroutine' object is not subscriptable" |}.
Proof.
  apply (main_fails_at_the_first_account one_account_env
           {| list_by_resource_group :=
                fun _ => Ok (Yield {| account_name_of := "acct" |} Exhausted);
              list_keys := fun _ _ => Ok ["key"%string] |}
           "rg" [] {| account_name_of := "acct" |} Exhausted "key" [] "sub" 10 100);
    reflexivity.
Defined.

(** Once the [automationassets] module is imported, every exception [main]
    raises is the one its handler builds: its text is [Error in PII scan: ]
    followed by the text of the exception caught. *)
Theorem main_wraps_every_error :
  forall (env : automation) (resource_group_names : option (list string))
         (max_scan_size_mb scan_depth : Z) (e : exn),
    import_automationassets env = Ok tt ->
    main env resource_group_names max_scan_size_mb scan_depth = Raise e ->
    exists caught,
      e = {| exn_kind := OtherException;
             exn_text := "Error in PII scan: " ++ exn_text caught |}.
Proof.
  intros env rgn m d e Hi H. unfold main, get_automation_vars in H. rewrite Hi in H.
  cbn [bind] in H.
  assert (Hb : forall names,
             match main_body env names m d with
             | Ok o => Ok o
             | Raise e0 => Raise (pii_scan_error e0)
             end = Raise e ->
             exists caught,
               e = {| exn_kind := OtherException;
                      exn_text := "Error in PII scan: " ++ exn_text caught |}).
  { intros names Hn. destruct (main_body env names m d) as [o|e0]; [discriminate|].
    injection Hn as <-. exists e0. reflexivity. }
  destruct rgn as [[|rg more]|]; cbn [bind] in H; eapply Hb; exact H.
Qed.

Lemma main_wraps_every_error_witness :
  exists caught,
    {| exn_kind := OtherException;
       exn_text := "Error in PII scan: 'coroutine' object is not subscriptable" |}
    = {| exn_kind := OtherException;
         exn_text := "Error in PII scan: " ++ exn_text caught |}.
Proof.
  apply (main_wraps_every_error one_account_env (Some ["rg"%string]) 10 100);
    reflexivity.
Defined.

(* ================================================================== *)
(** * The text of the capturing group *)

Lemma placed_after (s0 w : str) (c c1 : cursor) :
  placed s0 c -> rest c = w ++ rest c1 -> pos c1 = (pos c + length w)%nat ->
  placed s0 c1 /\ firstn (pos c1 - pos c) (skipn (pos c) s0) = w.
Proof.
  unfold placed. intros Hp E P. rewrite Hp in E. split.
  - rewrite P, Nat.add_comm, <- skipn_skipn, E, skipn_app, skipn_all, Nat.sub_diag.
    reflexivity.
  - rewrite E, P. replace (pos c + length w - pos c)%nat with (length w) by lia.
    rewrite firstn_app, firstn_all, Nat.sub_diag. simpl. apply app_nil_r.
Qed.

Section GroupFacts.

Variable db : unicode_data.
Variable s0 : str.
Variable G : str -> Prop.

Lemma iter_req_marked (step : cont -> cont) (L : str -> Prop) :
  marked_step s0 G step L ->
  forall n, marked_step s0 G (iter_req step n)
              (fun w => exists ws, w = concat ws /\ Forall L ws /\ length ws = n).
Proof.
  intros Hs n. induction n as [|n IH]; intros k c c' H Hp Hm; simpl in H.
  - exists [], c. simpl. rewrite Nat.add_0_r. conjs; auto. exists []. auto.
  - destruct (Hs _ _ _ H Hp Hm) as (w1 & c1 & E1 & P1 & L1 & M1 & H1).
    destruct (placed_after s0 w1 c c1 Hp E1 P1) as [Hp1 _].
    destruct (IH _ _ _ H1 Hp1 M1) as (w2 & c2 & E2 & P2 & (ws & -> & Hws & Hn) & M2 & H2).
    exists (w1 ++ concat ws), c2. rewrite E1, E2, P2, P1, length_app, app_assoc.
    conjs; auto; try lia. exists (w1 :: ws). simpl. conjs; auto.
Qed.

Lemma iter_opt_marked (step : cont -> cont) (L : str -> Prop) :
  marked_step s0 G step L ->
  forall n, marked_step s0 G (iter_opt step n)
              (fun w => exists ws, w = concat ws /\ Forall L ws /\ (length ws <= n)%nat).
Proof.
  intros Hs n. induction n as [|n IH]; intros k c c' H Hp Hm; simpl in H.
  - exists [], c. simpl. rewrite Nat.add_0_r. conjs; auto. exists []. auto.
  - apply orelse_some in H. destruct H as [H | H].
    + destruct (Hs _ _ _ H Hp Hm) as (w1 & c1 & E1 & P1 & L1 & M1 & H1).
      destruct (placed_after s0 w1 c c1 Hp E1 P1) as [Hp1 _].
      destruct (IH _ _ _ H1 Hp1 M1)
        as (w2 & c2 & E2 & P2 & (ws & -> & Hws & Hn) & M2 & H2).
      exists (w1 ++ concat ws), c2. rewrite E1, E2, P2, P1, length_app, app_assoc.
      conjs; auto; try lia. exists (w1 :: ws). simpl. conjs; auto. lia.
    + exists [], c. simpl. rewrite Nat.add_0_r. conjs; auto.
      exists []. simpl. conjs; auto. lia.
Qed.

Lemma run_marked (r : regex) :
  groups_within db G r -> marked_step s0 G (run db r) (Lang db r).
Proof.
  induction r as [ | cs | | a IHa b IHb | lo hi cs | lo hi body IH | body IH ];
    intros Hg k c c' H Hp Hm; simpl in H.
  - exists [], c. simpl. rewrite Nat.add_0_r. auto.
  - destruct c as [pv ps s mk]. simpl in *. destruct s as [|x s]; [discriminate|].
    destruct (charset_mem db cs x) eqn:Hx; [|discriminate].
    exists [x], {| prev := Some x; pos := S ps; rest := s; mark := mk |}. simpl.
    conjs; [reflexivity | lia | eauto | exact Hm | exact H].
  - destruct (at_boundary db c); [|discriminate].
    exists [], c. simpl. rewrite Nat.add_0_r. auto.
  - destruct Hg as [Hga Hgb].
    destruct (IHa Hga _ _ _ H Hp Hm) as (u & c1 & E1 & P1 & L1 & M1 & H1).
    destruct (placed_after s0 u c c1 Hp E1 P1) as [Hp1 _].
    destruct (IHb Hgb _ _ _ H1 Hp1 M1) as (v & c2 & E2 & P2 & L2 & M2 & H2).
    exists (u ++ v), c2. rewrite E1, E2, P2, P1, length_app, app_assoc.
    conjs; auto; try lia. simpl. eauto.
  - apply repeat_one_sound in H. destruct H as (w & s' & pv' & E & Hall & Hlo & Hhi & H).
    exists w, {| prev := pv'; pos := pos c + length w; rest := s'; mark := mark c |}.
    simpl. conjs; auto.
  - simpl in Hg.
    destruct (iter_req_marked _ _ (IH Hg) lo _ _ _ H Hp Hm)
      as (w1 & c1 & E1 & P1 & (ws1 & -> & F1 & N1) & M1 & H1).
    destruct (placed_after s0 _ c c1 Hp E1 P1) as [Hp1 _].
    destruct (iter_opt_marked _ _ (IH Hg) (hi - lo) _ _ _ H1 Hp1 M1)
      as (w2 & c2 & E2 & P2 & (ws2 & -> & F2 & N2) & M2 & H2).
    exists (concat ws1 ++ concat ws2), c2. rewrite E1, E2, P2, P1, length_app, app_assoc.
    conjs; auto; try lia.
    simpl. exists (ws1 ++ ws2). rewrite concat_app, length_app. conjs.
    + reflexivity.
    + apply Forall_app; auto.
    + lia.
    + lia.
  - destruct Hg as [HG Hg].
    destruct (IH Hg _ _ _ H Hp Hm) as (w & c1 & E & P & L & M & H1).
    destruct (placed_after s0 w c c1 Hp E P) as [_ Hw].
    exists w, {| prev := prev c1; pos := pos c1; rest := rest c1;
                 mark := Some (pos c, pos c1) |}.
    simpl. conjs; auto. unfold mark_within. simpl. rewrite Hw. apply HG. exact L.
Qed.

End GroupFacts.

Section GroupEntries.

Variable db : unicode_data.
Variable G : str -> Prop.

(** An entry of the match list of a pattern with a group is the empty string
    or a word of the group. *)
Lemma scan_group_entries (r : regex) :
  (0 < groups r)%nat -> groups_within db G r ->
  forall s skip pv m, In m (scan db r skip pv s) -> m = [] \/ G m.
Proof.
  intros Hn Hg.
  assert (Hitem : forall pv s c, re_match db r pv s = Some c ->
                                 findall_item r s c = [] \/ G (findall_item r s c)).
  { intros pv s c Hm. unfold re_match in Hm.
    destruct (run_marked db s G r Hg _ _ _ Hm) as (w & c1 & _ & _ & _ & M & H1).
    - reflexivity.
    - exact I.
    - injection H1 as <-. unfold findall_item.
      destruct (groups r); [lia|]. unfold mark_within in M.
      destruct (mark c1) as [[a b]|]; [right; exact M | left; reflexivity]. }
  induction s as [|x s IH]; intros skip pv m Hin.
  - destruct skip; simpl in Hin; [|contradiction].
    destruct (re_match db r pv []) as [c|] eqn:Hm; [|contradiction].
    destruct Hin as [<- | []]. eapply Hitem. exact Hm.
  - destruct skip; simpl in Hin; [|eapply IH; exact Hin].
    destruct (re_match db r pv (x :: s)) as [c|] eqn:Hm; [|eapply IH; exact Hin].
    destruct Hin as [<- | Hin]; [eapply Hitem; exact Hm | eapply IH; exact Hin].
Qed.

End GroupEntries.

(** The words of the group of the Phone Number pattern. *)
Lemma phone_group_words (db : unicode_data) (w : str) :
  Lang db phone_group w ->
  exists digits sp,
    w = chr "+" :: digits ++ [sp]
    /\ (1 <= length digits <= 2)%nat
    /\ Forall (fun d => uni_is_digit db d = true) digits
    /\ uni_is_space db sp = true.
Proof.
  intros (u1 & v1 & -> & (x & -> & Hx) & (ds & v2 & -> & (Hds & Hlo & Hhi)
          & (u3 & v3 & -> & (sp & -> & Hsp) & ->))).
  unfold charset_mem in Hx, Hsp. simpl in Hx, Hsp. rewrite orb_false_r in Hx, Hsp.
  apply N.eqb_eq in Hx. subst x.
  exists ds, sp. simpl. conjs; auto.
  eapply Forall_impl; [|exact Hds]. intros d Hd.
  unfold charset_mem in Hd. simpl in Hd. rewrite orb_false_r in Hd. exact Hd.
Qed.

(** Every entry of the match list of the Phone Number pattern is the text of
    its group: the empty string, or a [+], one or two digits and a white
    space.  It has at most four characters, none of them of the number
    itself, and the redaction returns it as it is. *)
Theorem phone_entries_are_never_masked :
  forall (db : unicode_data) (text m : str) (acc : list str),
    In m (re_findall db re_phone text) ->
    (m = []
     \/ exists digits sp,
          m = chr "+" :: digits ++ [sp]
          /\ (1 <= length digits <= 2)%nat
          /\ Forall (fun d => uni_is_digit db d = true) digits
          /\ uni_is_space db sp = true)
    /\ (length m <= 4)%nat
    /\ redact_match "Phone Number" m acc = Ok (acc ++ [m]).
Proof.
  intros db text m acc Hin.
  assert (Hm : m = [] \/ Lang db phone_group m).
  { assert (Hpos : (0 < groups re_phone)%nat) by (simpl; lia).
    assert (Hg : groups_within db (Lang db phone_group) re_phone)
      by (simpl; intuition).
    exact (scan_group_entries db (Lang db phone_group) re_phone Hpos Hg text 0%nat None m
                              Hin). }
  assert (Hshape : m = []
                   \/ exists digits sp,
                        m = chr "+" :: digits ++ [sp]
                        /\ (1 <= length digits <= 2)%nat
                        /\ Forall (fun d => uni_is_digit db d = true) digits
                        /\ uni_is_space db sp = true).
  { destruct Hm as [-> | Hm]; [left; reflexivity | right; apply phone_group_words; exact Hm]. }
  assert (Hlen : (length m <= 4)%nat).
  { destruct Hshape as [-> | (ds & sp & -> & Hds & _)]; simpl; [lia|].
    rewrite length_app. simpl. lia. }
  conjs; [exact Hshape | exact Hlen |].
  rewrite redact_last_four by reflexivity.
  replace (length m - 4)%nat with 0%nat by lia. reflexivity.
Qed.

(** The country code of [call x+1 555-123-4567]. *)
Lemma phone_entries_are_never_masked_witness :
  (str_of "+1 " = []
   \/ exists digits sp,
        str_of "+1 " = chr "+" :: digits ++ [sp]
        /\ (1 <= length digits <= 2)%nat
        /\ Forall (fun d => uni_is_digit ascii_only d = true) digits
        /\ uni_is_space ascii_only sp = true)
  /\ (length (str_of "+1 ") <= 4)%nat
  /\ redact_match "Phone Number" (str_of "+1 ") [] = Ok ([] ++ [str_of "+1 "]).
Proof.
  apply (phone_entries_are_never_masked ascii_only (str_of "call x+1 555-123-4567")).
  vm_compute. left. reflexivity.
Defined.

(* ================================================================== *)
(** * Task generation: the points of the tasks *)

Section TaskPoints.

Import GenerateTasks.

Lemma task_loop_points (base remainder : Z) (n : nat) :
  forall (i : Z) (tasks : list task) (points_assigned : Z),
    task_loop base remainder i n tasks points_assigned
    = (tasks ++ tasks_with_points i (points_from base remainder i n),
       (points_assigned + sum_Z (points_from base remainder i n))%Z).
Proof.
  induction n as [|n IH]; intros i tasks pa; simpl.
  - rewrite app_nil_r, Z.add_0_r. reflexivity.
  - rewrite IH, <- app_assoc. simpl. f_equal. lia.
Qed.

Lemma points_from_length (base remainder : Z) (n : nat) (i : Z) :
  length (points_from base remainder i n) = n.
Proof. revert i. induction n as [|n IH]; intros i; simpl; [reflexivity|]. rewrite IH. reflexivity. Qed.

Lemma points_from_sum (base remainder : Z) (n : nat) :
  forall i : Z,
    sum_Z (points_from base remainder i n)
    = (Z.of_nat n * base + Z.max 0 (Z.min (remainder - i) (Z.of_nat n)))%Z.
Proof.
  induction n as [|n IH]; intros i.
  - simpl. lia.
  - cbn [points_from sum_Z fold_right]. change (fold_right Z.add 0%Z) with sum_Z.
    rewrite IH. destruct (Z.ltb_spec i remainder); lia.
Qed.

Lemma points_from_values (base remainder : Z) (n : nat) :
  forall i : Z,
    Forall (fun p => p = base \/ p = (base + 1)%Z) (points_from base remainder i n).
Proof.
  induction n as [|n IH]; intros i; simpl; constructor; [|apply IH].
  destruct (i <? remainder)%Z; [right | left]; lia.
Qed.

(** With a positive number of tasks the assertion holds. *)
Lemma generate_with_positive_count (total_points num_tasks : Z)
    (task_points_min : option Z) (n : Z) :
  adjust_num_tasks total_points num_tasks task_points_min = Ok n -> (0 < n)%Z ->
  generate_tasks total_points num_tasks task_points_min
  = Ok (tasks_with_points 0 (points_from (total_points / n) (total_points mod n) 0
                                         (Z.to_nat n)))
  /\ sum_Z (points_from (total_points / n) (total_points mod n) 0 (Z.to_nat n))
     = total_points.
Proof.
  intros Ha Hn.
  assert (Hsum : sum_Z (points_from (total_points / n) (total_points mod n) 0 (Z.to_nat n))
                 = total_points).
  { rewrite points_from_sum. rewrite Z2Nat.id by lia.
    pose proof (Z.mod_pos_bound total_points n Hn) as Hb.
    pose proof (Z.div_mod total_points n) as Hd.
    rewrite Z.sub_0_r. lia. }
  split; [|exact Hsum].
  unfold generate_tasks. rewrite Ha. cbn [bind]. unfold floordiv, modulo.
  replace (n =? 0)%Z with false by (symmetry; apply Z.eqb_neq; lia). cbn [bind].
  rewrite task_loop_points. simpl app. rewrite Z.add_0_l, Hsum, Z.eqb_refl. reflexivity.
Qed.

End TaskPoints.

(** When the number of tasks left after the check against the minimum is
    positive, [generate_tasks] returns that many tasks and its assertion does
    not fail: the points of the tasks ([-n] of each command line) add up to
    [total_points], and each task gets the quotient rounded down or one
    more. *)
Theorem generate_tasks_allocates_all_points :
  forall (total_points num_tasks : Z) (task_points_min : option Z) (n : Z),
    GenerateTasks.adjust_num_tasks total_points num_tasks task_points_min = Ok n ->
    (0 < n)%Z ->
    exists points,
      GenerateTasks.generate_tasks total_points num_tasks task_points_min
      = Ok (GenerateTasks.tasks_with_points 0 points)
      /\ py_len points = n
      /\ sum_Z points = total_points
      /\ Forall (fun p => p = (total_points / n)%Z \/ p = (total_points / n + 1)%Z) points.
Proof.
  intros total_points num_tasks task_points_min n Ha Hn.
  destruct (generate_with_positive_count total_points num_tasks task_points_min n Ha Hn)
    as [Hg Hs].
  eexists. conjs; [exact Hg | | exact Hs | apply points_from_values].
  unfold py_len. rewrite points_from_length. lia.
Qed.

(** Ten points over three tasks. *)
Lemma generate_tasks_allocates_all_points_witness :
  exists points,
    GenerateTasks.generate_tasks 10 3 None = Ok (GenerateTasks.tasks_with_points 0 points)
    /\ py_len points = 3%Z
    /\ sum_Z points = 10%Z
    /\ Forall (fun p => p = (10 / 3)%Z \/ p = (10 / 3 + 1)%Z) points.
Proof.
  apply (generate_tasks_allocates_all_points 10 3 None 3); [reflexivity | lia].
Defined.

(** With a minimum [m > 0] that is at most [total_points] and a positive
    [num_tasks], [generate_tasks] returns [min(num_tasks, total_points // m)]
    tasks, and every task gets at least [m] points. *)
Theorem generate_tasks_respects_the_minimum :
  forall (total_points num_tasks m : Z),
    (0 < m <= total_points)%Z -> (0 < num_tasks)%Z ->
    exists points,
      GenerateTasks.generate_tasks total_points num_tasks (Some m)
      = Ok (GenerateTasks.tasks_with_points 0 points)
      /\ py_len points = Z.min num_tasks (total_points / m)
      /\ Forall (fun p => (m <= p)%Z) points.
Proof.
  intros total_points num_tasks m Hm Hnum.
  assert (Hq : (1 <= total_points / m)%Z).
  { apply Z.div_le_lower_bound; lia. }
  assert (Ha : GenerateTasks.adjust_num_tasks total_points num_tasks (Some m)
               = Ok (Z.min num_tasks (total_points / m))).
  { unfold GenerateTasks.adjust_num_tasks, GenerateTasks.floordiv.
    replace (m =? 0)%Z with false by (symmetry; apply Z.eqb_neq; lia). cbn [bind].
    destruct (Z.ltb_spec (total_points / m) num_tasks); f_equal; lia. }
  set (n := Z.min num_tasks (total_points / m)) in *.
  assert (Hn : (0 < n)%Z) by (unfold n; lia).
  destruct (generate_with_positive_count total_points num_tasks (Some m) n Ha Hn)
    as [Hg Hs].
  eexists. conjs; [exact Hg | |].
  - unfold py_len. rewrite points_from_length. lia.
  - assert (Hbase : (m <= total_points / n)%Z).
    { apply Z.div_le_lower_bound; [lia|].
      assert (Hnm : (n <= total_points / m)%Z) by (unfold n; lia).
      pose proof (Z.mul_div_le total_points m ltac:(lia)) as Hle. nia. }
    eapply Forall_impl; [|apply points_from_values].
    intros p [-> | ->]; lia.
Qed.

(** A hundred points, ten tasks asked for, at least thirty points each. *)
Lemma generate_tasks_respects_the_minimum_witness :
  exists points,
    GenerateTasks.generate_tasks 100 10 (Some 30%Z)
    = Ok (GenerateTasks.tasks_with_points 0 points)
    /\ py_len points = Z.min 10 (100 / 30)
    /\ Forall (fun p => (30 <= p)%Z) points.
Proof. apply (generate_tasks_respects_the_minimum 100 10 30); lia. Defined.

(** For [total_points >= 0]: a minimum above [total_points] (with a positive
    [num_tasks]), or a [num_tasks] of zero, ends [generate_tasks] in
    [ZeroDivisionError]: the number of tasks is zero, in the first case
    after its reduction to [total_points // m = 0], and then divides
    [total_points]. *)
Theorem generate_tasks_divides_by_zero :
  forall (total_points num_tasks m : Z),
    (0 <= total_points < m /\ 0 < num_tasks)%Z
    \/ (0 <= total_points /\ 0 < m /\ num_tasks = 0)%Z ->
    GenerateTasks.generate_tasks total_points num_tasks (Some m)
    = Raise {| exn_kind := OtherException;
               exn_text := "integer division or modulo by zero" |}.
Proof.
  intros total_points num_tasks m H.
  assert (Hm : (m =? 0)%Z = false) by (apply Z.eqb_neq; lia).
  assert (Ha : GenerateTasks.adjust_num_tasks total_points num_tasks (Some m) = Ok 0%Z).
  { unfold GenerateTasks.adjust_num_tasks, GenerateTasks.floordiv. rewrite Hm. cbn [bind].
    destruct H as [[Ht Hn] | (Ht & Hp & ->)].
    - rewrite Z.div_small by lia.
      replace (0 <? num_tasks)%Z with true by (symmetry; apply Z.ltb_lt; lia).
      reflexivity.
    - pose proof (Z.div_pos total_points m Ht Hp) as Hq.
      replace (total_points / m <? 0)%Z with false by (symmetry; apply Z.ltb_ge; lia).
      reflexivity. }
  unfold GenerateTasks.generate_tasks. rewrite Ha. reflexivity.
Qed.

(** Half a million points against the default minimum of a million. *)
Lemma generate_tasks_divides_by_zero_witness :
  GenerateTasks.generate_tasks 500000 10 (Some 1000000%Z)
  = Raise {| exn_kind := OtherException;
             exn_text := "integer division or modulo by zero" |}.
Proof. apply (generate_tasks_divides_by_zero 500000 10 1000000). left. lia. Defined.

(** With a negative number of tasks the loop does not run, and the assertion
    fails unless [total_points] is zero. *)
Theorem generate_tasks_with_negative_count :
  forall (total_points num_tasks : Z) (task_points_min : option Z) (n : Z),
    GenerateTasks.adjust_num_tasks total_points num_tasks task_points_min = Ok n ->
    (n < 0)%Z ->
    GenerateTasks.generate_tasks total_points num_tasks task_points_min
    = if (total_points =? 0)%Z then Ok []
      else Raise {| exn_kind := OtherException;
                    exn_text := ("Point allocation error: 0 != "
                                 ++ GenerateTasks.str_int total_points)%string |}.
Proof.
  intros total_points num_tasks task_points_min n Ha Hn.
  unfold GenerateTasks.generate_tasks. rewrite Ha. cbn [bind].
  unfold GenerateTasks.floordiv, GenerateTasks.modulo.
  replace (n =? 0)%Z with false by (symmetry; apply Z.eqb_neq; lia). cbn [bind].
  replace (Z.to_nat n) with 0%nat by lia. cbn [GenerateTasks.task_loop].
  destruct total_points; reflexivity.
Qed.

Lemma generate_tasks_with_negative_count_witness :
  GenerateTasks.generate_tasks 10 (-1) None
  = if (10 =? 0)%Z then Ok []
    else Raise {| exn_kind := OtherException;
                  exn_text := ("Point allocation error: 0 != "
                               ++ GenerateTasks.str_int 10)%string |}.
Proof.
  apply (generate_tasks_with_negative_count 10 (-1) None (-1)); [reflexivity | lia].
Defined.

(* ================================================================== *)
(** * Task generation: the identifiers *)

Section TaskIds.

Import GenerateTasks.

Lemma str_int_digits (k : Z) :
  (0 <= k)%Z ->
  exists d, str_int k = NilEmpty.string_of_uint d /\ Z.of_uint d = k.
Proof.
  intros Hk. destruct k as [|p|p]; [| |lia].
  - exists Decimal.zero. split; reflexivity.
  - exists (Pos.to_uint p). split.
    + unfold str_int. simpl. unfold NilZero.string_of_uint.
      pose proof (DecimalPos.Unsigned.to_uint_nonnil p) as Hn.
      destruct (Pos.to_uint p); [contradiction Hn; reflexivity | reflexivity ..].
    + exact (DecimalZ.of_to (Z.pos p)).
Qed.

Lemma id_number_zeros (j : nat) (s : string) :
  id_number (zeros j ++ s) = id_number s.
Proof.
  induction j as [|j IH]; [reflexivity|].
  unfold id_number in *. simpl.
  destruct (NilEmpty.uint_of_string (zeros j ++ s)) as [d|];
    destruct (NilEmpty.uint_of_string s) as [d'|]; simpl in *; try discriminate;
    try reflexivity.
  injection IH as IH. f_equal. exact IH.
Qed.

(** An identifier stands for the number it was made of. *)
Lemma id_number_format (k : Z) : (0 <= k)%Z -> id_number (format_04d k) = Some k.
Proof.
  intros Hk. unfold format_04d.
  replace (k <? 0)%Z with false by (symmetry; apply Z.ltb_ge; lia).
  rewrite Z.abs_eq by lia. simpl append.
  rewrite id_number_zeros.
  destruct (str_int_digits k Hk) as (d & -> & Hd).
  unfold id_number. rewrite NilEmpty.usu. simpl. f_equal. exact Hd.
Qed.

Lemma task_ids_numbers (n : nat) :
  forall (i : Z) (s : string),
    (0 <= i)%Z -> In s (task_ids_from i n) ->
    exists k, (i < k)%Z /\ id_number s = Some k.
Proof.
  induction n as [|n IH]; intros i s Hi Hin; simpl in Hin; [contradiction|].
  destruct Hin as [<- | Hin].
  - exists (i + 1)%Z. split; [lia | apply id_number_format; lia].
  - destruct (IH (i + 1)%Z s ltac:(lia) Hin) as (k & Hk & E). exists k. split; [lia | exact E].
Qed.

Lemma task_ids_distinct (n : nat) :
  forall i : Z, (0 <= i)%Z -> NoDup (task_ids_from i n).
Proof.
  induction n as [|n IH]; intros i Hi; simpl; constructor.
  - intros Hin. destruct (task_ids_numbers n (i + 1)%Z _ ltac:(lia) Hin) as (k & Hk & E).
    rewrite id_number_format in E by lia. injection E as E. lia.
  - apply IH. lia.
Qed.

Lemma ids_of_tasks (points : list Z) :
  forall i : Z, map id_of (tasks_with_points i points) = task_ids_from i (length points).
Proof.
  induction points as [|p ps IH]; intros i; simpl; [reflexivity|].
  rewrite IH. reflexivity.
Qed.

(** What [generate_tasks] returns is a list of tasks numbered from 1. *)
Lemma generate_tasks_numbered (total_points num_tasks : Z) (task_points_min : option Z)
    (tasks : list task) :
  generate_tasks total_points num_tasks task_points_min = Ok tasks ->
  exists points, tasks = tasks_with_points 0 points.
Proof.
  unfold generate_tasks. intros H.
  destruct (adjust_num_tasks total_points num_tasks task_points_min) as [n|e];
    [|discriminate].
  cbn [bind] in H. destruct (floordiv total_points n) as [b|e]; [|discriminate].
  cbn [bind] in H. destruct (modulo total_points n) as [r|e]; [|discriminate].
  cbn [bind] in H. rewrite task_loop_points in H. simpl app in H.
  destruct (0 + sum_Z (points_from b r 0 (Z.to_nat n)) =? total_points)%Z; [|discriminate].
  injection H as <-. eexists. reflexivity.
Qed.

End TaskIds.

(** In the list [main] builds, the merge task depends on exactly the
    identifiers of the calculation tasks, in their order, and these
    identifiers are pairwise distinct. *)
Theorem merge_task_depends_on_the_generated_tasks :
  forall (total_points num_tasks min_points : Z) (specs : list GenerateTasks.task_spec),
    GenerateTasks.main_tasks total_points num_tasks min_points = Ok specs ->
    exists tasks merge,
      GenerateTasks.generate_tasks total_points num_tasks (Some min_points) = Ok tasks
      /\ specs = map GenerateTasks.Calculation tasks ++ [GenerateTasks.Merge merge]
      /\ GenerateTasks.depends_on merge = map GenerateTasks.id_of tasks
      /\ NoDup (map GenerateTasks.id_of tasks).
Proof.
  intros total_points num_tasks min_points specs H.
  unfold GenerateTasks.main_tasks in H.
  destruct (GenerateTasks.generate_tasks total_points num_tasks (Some min_points))
    as [tasks|e] eqn:Hg; [|discriminate].
  cbn [bind] in H. injection H as <-.
  exists tasks, (GenerateTasks.create_merge_task (py_len tasks)).
  destruct (generate_tasks_numbered _ _ _ _ Hg) as (points & ->).
  assert (Hids : map GenerateTasks.id_of (GenerateTasks.tasks_with_points 0 points)
                 = GenerateTasks.task_ids_from 0 (length points))
    by apply ids_of_tasks.
  conjs; [reflexivity | reflexivity | |].
  - simpl. unfold py_len. rewrite Nat2Z.id, Hids.
    clear. generalize 0%Z. induction points as [|p ps IH]; intros i; simpl; [reflexivity|].
    rewrite IH. reflexivity.
  - rewrite Hids. apply task_ids_distinct. lia.
Qed.

(** A hundred points over three tasks of at least ten points. *)
Lemma merge_task_depends_on_the_generated_tasks_witness :
  exists tasks merge,
    GenerateTasks.generate_tasks 100 3 (Some 10%Z) = Ok tasks
    /\ GenerateTasks.sample_task_list
       = map GenerateTasks.Calculation tasks ++ [GenerateTasks.Merge merge]
    /\ GenerateTasks.depends_on merge = map GenerateTasks.id_of tasks
    /\ NoDup (map GenerateTasks.id_of tasks).
Proof.
  apply (merge_task_depends_on_the_generated_tasks 100 3 10 GenerateTasks.sample_task_list).
  vm_compute. reflexivity.
Defined.

(* ================================================================== *)
(** * From the patterns to the flag of a blob *)

Lemma filter_nil_existsb {A : Type} (f : A -> bool) (l : list A) :
  (0 <? py_len (filter f l))%Z = existsb f l.
Proof.
  induction l as [|x l IH]; simpl; [reflexivity|].
  destruct (f x); simpl; [|exact IH].
  unfold py_len. simpl length. apply Z.ltb_lt. lia.
Qed.

(** A blob within the limit whose bytes are the UTF-8 form of a text is
    flagged with [has_pii] exactly when some pattern of the registry has a
    match in that text, and the [pii_types] recorded for it are the names of
    the patterns that have one, in the order of the registry. *)
Theorem blob_flagged_when_a_pattern_matches :
  forall (db : unicode_data) (client : blob_client) (max_size_mb : Z)
         (p : blob_properties) (s : stream_downloader) (content : list byte) (text : str),
    get_blob_properties client = Ok p ->
    (size p <= max_size_mb * 1024 * 1024)%Z ->
    download_blob client = Ok s ->
    readall s = Ok content ->
    utf8_decode content = Some text ->
    get_has_pii (fst (scan_blob db client max_size_mb))
    = existsb (has_match db text) PII_PATTERNS
    /\ dict_keys (get_findings (fst (scan_blob db client max_size_mb)))
       = map fst (filter (has_match db text) PII_PATTERNS).
Proof.
  intros db client max_size_mb p s content text Hp Hs Hd Hr Hu.
  destruct (scan_patterns_entries db text PII_PATTERNS) with (f0 := @nil (string * finding))
    as (g & E & Hk & _).
  - unfold PII_PATTERNS. simpl.
    repeat (apply NoDup_cons; [simpl; intuition discriminate|]). apply NoDup_nil.
  - apply registry_redacts_one.
  - intros k _ [].
  - simpl app in E. fold (scan_text_for_pii db text) in E.
    unfold scan_blob. rewrite Hp.
    replace (max_size_mb * 1024 * 1024 <? size p)%Z with false
      by (symmetry; apply Z.ltb_ge; exact Hs).
    rewrite Hd, Hr, Hu, E. unfold get_has_pii, get_findings. cbn [fst has_pii findings].
    split; [|exact Hk].
    rewrite <- filter_nil_existsb. unfold py_len.
    rewrite <- (length_map fst g), Hk, length_map. reflexivity.
Qed.

(** The blob of exactly 10 MB that delivers the text [hi]. *)
Lemma blob_flagged_when_a_pattern_matches_witness :
  get_has_pii (fst (scan_blob ascii_only blob_at_the_limit 10))
  = existsb (has_match ascii_only (str_of "hi")) PII_PATTERNS
  /\ dict_keys (get_findings (fst (scan_blob ascii_only blob_at_the_limit 10)))
     = map fst (filter (has_match ascii_only (str_of "hi")) PII_PATTERNS).
Proof.
  apply (blob_flagged_when_a_pattern_matches ascii_only blob_at_the_limit 10
           {| size := 10485760 |} {| readall := Ok [x68; x69] |} [x68; x69] (str_of "hi"));
    (reflexivity || (simpl; lia)).
Defined.
